(** * The binary operator node of the VRL compiler
    (lib/vrl/compiler/src/expression/op.rs): construction ([Op::new]),
    single-record and batch evaluation ([resolve], [resolve_batch]),
    static typing ([type_def]) and the diagnostics of its errors. *)

From Stdlib Require Import ZArith List String Bool Floats Lia Permutation.
Import ListNotations.
Open Scope Z_scope.
Set Warnings "-register-all".

(** ** Rust's [Result] *)

Inductive Result (A E : Type) : Type :=
| Ok (a : A)
| Err (e : E).
Arguments Ok {A E} a.
Arguments Err {A E} e.

Definition map_err {A E F : Type} (f : E -> F) (r : Result A E) : Result A F :=
  match r with Ok a => Ok a | Err e => Err (f e) end.

Definition is_err {A E : Type} (r : Result A E) : bool :=
  match r with Ok _ => false | Err _ => true end.

(** ** Interleavings

    [interleaving a b c]: [c] consists of the elements of [a] and of [b],
    each list keeping its relative order. *)

Inductive interleaving {A : Type} : list A -> list A -> list A -> Prop :=
| il_nil : interleaving [] [] []
| il_left (x : A) a b c : interleaving a b c -> interleaving (x :: a) b (x :: c)
| il_right (x : A) a b c : interleaving a b c -> interleaving a (x :: b) (x :: c).

(** A merge of two sequences that keeps the relative order of each. *)
Definition order_preserving_merge {A : Type} (m : list A -> list A -> list A) : Prop :=
  forall a b, interleaving a b (m a b).

(** ** Values (crate [value]) *)

Module value.

(** [Value::Float] holds a [NotNan<f64>]; it is an IEEE double here. *)
Inductive Value : Type :=
| Bytes (b : string)
| Integer (i : Z)
| Float (f : float)
| Boolean (b : bool)
| Timestamp (t : Z)
| Regex (r : string)
| Object (fields : list (string * Value))
| Array (items : list Value)
| Null.

(** [f64::is_normal]: neither zero, subnormal, infinite nor NaN. *)
Definition is_normal (f : float) : bool :=
  match PrimFloat.classify f with
  | PNormal | NNormal => true
  | _ => false
  end.

End value.
Import value.

(** ** Opcodes (crate [parser], [ast::Opcode]) *)

Module ast.
Inductive Opcode : Type :=
| Mul | Div | Add | Sub | Rem | Or | And | Err
| Ne | Eq | Ge | Gt | Lt | Le | Merge.
End ast.

(** [matches!(opcode, Eq | Ne | Lt | Le | Gt | Ge)] *)
Definition is_comparison (o : ast.Opcode) : bool :=
  match o with
  | ast.Eq | ast.Ne | ast.Lt | ast.Le | ast.Gt | ast.Ge => true
  | _ => false
  end.

(** ** Kinds and type definitions (crates [value::kind] and [compiler::type_def])

    A [Kind] is the set of value categories an expression may resolve to.
    The object and array shapes the library tracks are not needed by the
    operator rules and are left out. *)

Record Kind : Type := mkKind {
  k_bytes : bool; k_integer : bool; k_float : bool; k_boolean : bool;
  k_timestamp : bool; k_regex : bool; k_null : bool; k_array : bool;
  k_object : bool }.

Definition K_none : Kind := mkKind false false false false false false false false false.
Definition K_bytes : Kind := {| k_bytes := true; k_integer := false; k_float := false; k_boolean := false; k_timestamp := false; k_regex := false; k_null := false; k_array := false; k_object := false |}.
Definition K_integer : Kind := {| k_bytes := false; k_integer := true; k_float := false; k_boolean := false; k_timestamp := false; k_regex := false; k_null := false; k_array := false; k_object := false |}.
Definition K_float : Kind := {| k_bytes := false; k_integer := false; k_float := true; k_boolean := false; k_timestamp := false; k_regex := false; k_null := false; k_array := false; k_object := false |}.
Definition K_boolean : Kind := {| k_bytes := false; k_integer := false; k_float := false; k_boolean := true; k_timestamp := false; k_regex := false; k_null := false; k_array := false; k_object := false |}.
Definition K_null : Kind := {| k_bytes := false; k_integer := false; k_float := false; k_boolean := false; k_timestamp := false; k_regex := false; k_null := true; k_array := false; k_object := false |}.
Definition K_object : Kind := {| k_bytes := false; k_integer := false; k_float := false; k_boolean := false; k_timestamp := false; k_regex := false; k_null := false; k_array := false; k_object := true |}.

(** Pointwise union of two kinds ([Kind::union], [or_*]). *)
Definition k_union (a b : Kind) : Kind :=
  mkKind (k_bytes a || k_bytes b) (k_integer a || k_integer b)
         (k_float a || k_float b) (k_boolean a || k_boolean b)
         (k_timestamp a || k_timestamp b) (k_regex a || k_regex b)
         (k_null a || k_null b) (k_array a || k_array b)
         (k_object a || k_object b).

(** [a.is_superset(b)]: every category of [b] is in [a]. *)
Definition k_is_superset (a b : Kind) : bool :=
  implb (k_bytes b) (k_bytes a) && implb (k_integer b) (k_integer a)
  && implb (k_float b) (k_float a) && implb (k_boolean b) (k_boolean a)
  && implb (k_timestamp b) (k_timestamp a) && implb (k_regex b) (k_regex a)
  && implb (k_null b) (k_null a) && implb (k_array b) (k_array a)
  && implb (k_object b) (k_object a).

Definition k_eqb (a b : Kind) : bool := k_is_superset a b && k_is_superset b a.

Record TypeDef : Type := mkTypeDef { fallible : bool; kind : Kind }.

Definition is_infallible (td : TypeDef) : bool := negb (fallible td).
Definition infallible (td : TypeDef) : TypeDef := mkTypeDef false (kind td).
Definition make_fallible (td : TypeDef) : TypeDef := mkTypeDef true (kind td).
Definition with_kind (td : TypeDef) (k : Kind) : TypeDef := mkTypeDef (fallible td) k.

(** [is_null], [is_boolean], ...: the kind is exactly that one category. *)
Definition is_null (td : TypeDef) : bool := k_eqb (kind td) K_null.
Definition is_boolean (td : TypeDef) : bool := k_eqb (kind td) K_boolean.
Definition is_bytes (td : TypeDef) : bool := k_eqb (kind td) K_bytes.
Definition is_integer (td : TypeDef) : bool := k_eqb (kind td) K_integer.
Definition is_float (td : TypeDef) : bool := k_eqb (kind td) K_float.
Definition is_object (td : TypeDef) : bool := k_eqb (kind td) K_object.
Definition td_is_superset (td : TypeDef) (k : Kind) : bool := k_is_superset (kind td) k.

(** [merge_deep]: union of the kinds, either side fallible. *)
Definition merge_deep (a b : TypeDef) : TypeDef :=
  mkTypeDef (fallible a || fallible b) (k_union (kind a) (kind b)).

(** Modelled from the spec: [TypeDef::merge_overwrite] (compiler crate, not
    among the sources): the rhs shape overrides the lhs at overlapping parts,
    union elsewhere; on kinds without shapes this is the union, fallible when
    either side is. *)
Definition merge_overwrite (a b : TypeDef) : TypeDef :=
  mkTypeDef (fallible a || fallible b) (k_union (kind a) (kind b)).

(** [fallible_unless(kind)]: fallible unless [td]'s kind is within [k]. *)
Definition fallible_unless (td : TypeDef) (k : Kind) : TypeDef :=
  if k_is_superset k (kind td) then td else make_fallible td.

Definition remove_null (td : TypeDef) : TypeDef :=
  let k := kind td in
  mkTypeDef (fallible td)
    (mkKind (k_bytes k) (k_integer k) (k_float k) (k_boolean k)
            (k_timestamp k) (k_regex k) false (k_array k) (k_object k)).

(** [TypeDef::float()], [TypeDef::integer()]: infallible, one category. *)
Definition td_float : TypeDef := mkTypeDef false K_float.
Definition td_integer : TypeDef := mkTypeDef false K_integer.
Definition add_integer (td : TypeDef) : TypeDef :=
  mkTypeDef (fallible td) (k_union (kind td) K_integer).

(** ** The value capability (trait [VrlValueArithmetic] of the value crate)

    The operator node uses these fallible operations on values; their
    implementation lives outside the operator and every statement below holds
    for any implementation. *)

Class VrlValueArithmetic (VE : Type) : Type := {
  try_mul : Value -> Value -> Result Value VE;
  try_div : Value -> Value -> Result Value VE;
  try_add : Value -> Value -> Result Value VE;
  try_sub : Value -> Value -> Result Value VE;
  try_rem : Value -> Value -> Result Value VE;
  try_gt : Value -> Value -> Result Value VE;
  try_ge : Value -> Value -> Result Value VE;
  try_lt : Value -> Value -> Result Value VE;
  try_le : Value -> Value -> Result Value VE;
  try_merge : Value -> Value -> Result Value VE;
  try_and : Value -> Value -> Result Value VE;
  eq_lossy : Value -> Value -> bool }.

(** Rust's [Into]: the conversion of a value error into an expression error. *)
Class Into (A B : Type) : Type := into : A -> B.

(** ** Source spans and parser nodes *)

Record Span : Type := mkSpan { span_start : nat; span_end : nat }.

(** [Node<T>]: a parsed item with its span; [take] splits it. *)
Record Node (T : Type) : Type := mkNode { span : Span; inner : T }.
Arguments mkNode {T} span inner.
Arguments span {T} n.
Arguments inner {T} n.
Definition take {T : Type} (n : Node T) : Span * T := (span n, inner n).

Section Vrl.

(** [Ctx] is one record's evaluation context ([Context]: its target, its
    runtime state and the timezone); [ExpressionError] the runtime error. *)
Context {Ctx ExpressionError : Type}.

Definition Resolved : Type := Result Value ExpressionError.

(** Every expression node other than [Op] (literal, variable, function call,
    ...), seen through the [Expression] trait: how it resolves against one
    record's context, its statically inferred [TypeDef], and [as_value], the
    compile-time literal probe. *)
Record Leaf : Type := mkLeaf {
  leaf_resolve : Ctx -> Resolved * Ctx;
  leaf_type_def : TypeDef;
  leaf_as_value : option Value }.

(** [Expr] with its [Op] variant, and the [Op] struct
    [{ lhs: Box<Expr>, rhs: Box<Expr>, opcode: ast::Opcode }]. *)
Inductive Expr : Type :=
| ELeaf (l : Leaf)
| EOp (op : Op)
with Op : Type :=
| mkOp (lhs : Expr) (rhs : Expr) (opcode : ast.Opcode).

Definition op_lhs (o : Op) : Expr := let 'mkOp l _ _ := o in l.
Definition op_rhs (o : Op) : Expr := let 'mkOp _ r _ := o in r.
Definition op_opcode (o : Op) : ast.Opcode := let 'mkOp _ _ c := o in c.

(** [Expression::as_value]: only literals answer; [Op] keeps the default
    [None]. *)
Definition as_value (e : Expr) : option Value :=
  match e with ELeaf l => leaf_as_value l | EOp _ => None end.

(** *** Static typing: [Op::type_def] *)

Definition K_null_or_boolean : Kind := k_union K_null K_boolean.
Definition K_integer_or_float : Kind := k_union K_integer K_float.
Definition K_bytes_or_null : Kind := k_union K_bytes K_null.

(** The body of [Op::type_def], from the type definitions of the operands and
    the literal value of the rhs, if any. *)
Definition op_type_def_rule (opcode : ast.Opcode) (lhs_def rhs_def : TypeDef)
    (rhs_value : option Value) : TypeDef :=
  match opcode with
  | ast.Err =>
      if is_infallible rhs_def then infallible (merge_deep lhs_def rhs_def)
      else merge_deep lhs_def rhs_def
  | ast.Or =>
      if is_null lhs_def then rhs_def
      else if negb (td_is_superset lhs_def K_null || td_is_superset lhs_def K_boolean)
      then lhs_def
      else if negb (is_boolean lhs_def)
      then merge_deep (remove_null lhs_def) rhs_def
      else merge_deep lhs_def rhs_def
  | ast.Merge => merge_overwrite lhs_def rhs_def
  | ast.And =>
      if is_null lhs_def
      then with_kind (fallible_unless rhs_def K_null_or_boolean) K_boolean
      else with_kind (merge_deep (fallible_unless lhs_def K_null_or_boolean)
                                 (fallible_unless rhs_def K_null_or_boolean)) K_boolean
  | ast.Eq | ast.Ne => with_kind (merge_deep lhs_def rhs_def) K_boolean
  | ast.Gt | ast.Ge | ast.Lt | ast.Le =>
      if is_bytes lhs_def && is_bytes rhs_def
      then with_kind (merge_deep lhs_def rhs_def) K_boolean
      else with_kind (merge_deep (fallible_unless lhs_def K_integer_or_float)
                                 (fallible_unless rhs_def K_integer_or_float)) K_boolean
  | ast.Div =>
      let td := td_float in
      match rhs_value with
      | Some value =>
          if is_float lhs_def || is_integer lhs_def then
            match value with
            | Float v => if is_normal v then infallible td else make_fallible td
            | Integer v => if negb (v =? 0) then infallible td else make_fallible td
            | _ => make_fallible td
            end
          else make_fallible td
      | None => make_fallible td
      end
  | ast.Rem =>
      match rhs_value with
      | Some value =>
          if is_float lhs_def || is_integer lhs_def then
            match value with
            | Float v =>
                if is_normal v then infallible td_float else make_fallible td_float
            | Integer v =>
                if negb (v =? 0) then infallible td_integer else make_fallible td_integer
            | _ => make_fallible (add_integer td_float)
            end
          else make_fallible (add_integer td_float)
      | None => make_fallible (add_integer td_float)
      end
  | ast.Add =>
      if is_bytes lhs_def || is_bytes rhs_def then
        with_kind (merge_deep (fallible_unless lhs_def K_bytes_or_null)
                              (fallible_unless rhs_def K_bytes_or_null)) K_bytes
      else if is_float lhs_def || is_float rhs_def then
        with_kind (merge_deep (fallible_unless lhs_def K_integer_or_float)
                              (fallible_unless rhs_def K_integer_or_float)) K_float
      else if is_integer lhs_def && is_integer rhs_def then
        with_kind (merge_deep lhs_def rhs_def) K_integer
      else
        with_kind (make_fallible (merge_deep lhs_def rhs_def))
                  (k_union (k_union K_bytes K_integer) K_float)
  | ast.Sub =>
      if is_float lhs_def || is_float rhs_def then
        with_kind (merge_deep (fallible_unless lhs_def K_integer_or_float)
                              (fallible_unless rhs_def K_integer_or_float)) K_float
      else if is_integer lhs_def && is_integer rhs_def then
        with_kind (merge_deep lhs_def rhs_def) K_integer
      else
        with_kind (make_fallible (merge_deep lhs_def rhs_def)) K_integer_or_float
  | ast.Mul =>
      if is_float lhs_def || is_float rhs_def then
        with_kind (merge_deep (fallible_unless lhs_def K_integer_or_float)
                              (fallible_unless rhs_def K_integer_or_float)) K_float
      else if is_integer lhs_def && is_integer rhs_def then
        with_kind (merge_deep lhs_def rhs_def) K_integer
      else if is_bytes lhs_def && is_integer rhs_def then
        with_kind (merge_deep lhs_def rhs_def) K_bytes
      else if is_integer lhs_def && is_bytes rhs_def then
        with_kind (merge_deep lhs_def rhs_def) K_bytes
      else
        with_kind (make_fallible (merge_deep lhs_def rhs_def))
                  (k_union (k_union K_bytes K_integer) K_float)
  end.

Fixpoint type_def (e : Expr) : TypeDef :=
  match e with
  | ELeaf l => leaf_type_def l
  | EOp o => op_type_def o
  end
with op_type_def (o : Op) : TypeDef :=
  match o with
  | mkOp lhs rhs opcode =>
      op_type_def_rule opcode (type_def lhs) (type_def rhs) (as_value rhs)
  end.

End Vrl.

(** ** Construction errors ([op::Error]) and their diagnostics *)

Module op.
(** [E] is [expression::Error], wrapped by the [Expr] variant. *)
Inductive Error (E : Type) : Type :=
| ChainedComparison (span : Span)
| UnnecessaryCoalesce (lhs_span rhs_span op_span : Span)
| MergeNonObjects (lhs_span rhs_span : option Span)
| Expr (err : E).
Arguments ChainedComparison {E} span.
Arguments UnnecessaryCoalesce {E} lhs_span rhs_span op_span.
Arguments MergeNonObjects {E} lhs_span rhs_span.
Arguments Expr {E} err.
End op.

(** [diagnostic::Label]: a message attached to a span, primary or context. *)
Record Label : Type := mkLabel { label_message : string; label_span : Span; label_primary : bool }.
Definition Label_primary (m : string) (s : Span) : Label := mkLabel m s true.
Definition Label_context (m : string) (s : Span) : Label := mkLabel m s false.

(** [Urls::expression_docs_url(anchor)], kept as the anchor it is built from. *)
Inductive Url : Type := ExpressionDocsUrl (anchor : string).

(** [diagnostic::Note], the variant the operator uses. *)
Inductive Note : Type := SeeDocs (title : string) (url : Url).

(** The [DiagnosticMessage] trait. *)
Class DiagnosticMessage (T : Type) : Type := {
  code : T -> nat;
  message : T -> string;
  labels : T -> list Label;
  notes : T -> list Note }.

(** [Display] of [op::Error], from its [#[error(...)]] attributes. *)
Definition error_to_string {E : Type} (err : op.Error E) : string :=
  match err with
  | op.ChainedComparison _ => "comparison operators can't be chained together"
  | op.UnnecessaryCoalesce _ _ _ => "unnecessary error coalescing operation"
  | op.MergeNonObjects _ _ => "only objects can be merged"
  | op.Expr _ => "fallible operation"
  end.

Section Diagnostics.
Context {E : Type} `{DiagnosticMessage E}.

Definition op_error_code (err : op.Error E) : nat :=
  match err with
  | op.ChainedComparison _ => 650
  | op.UnnecessaryCoalesce _ _ _ => 651
  | op.MergeNonObjects _ _ => 652
  | op.Expr err => code err
  end.

Definition op_error_message (err : op.Error E) : string :=
  match err with
  | op.Expr err => message err
  | err => error_to_string err
  end.

Definition op_error_labels (err : op.Error E) : list Label :=
  match err with
  | op.ChainedComparison span => [Label_primary "" span]
  | op.UnnecessaryCoalesce lhs_span rhs_span op_span =>
      [Label_primary "this expression can't fail" lhs_span;
       Label_context "this expression never resolves" rhs_span;
       Label_context "remove this error coalescing operation" op_span]
  | op.MergeNonObjects lhs_span rhs_span =>
      let labels := match lhs_span with
                    | Some lhs_span => [Label_primary "this expression must resolve to an object" lhs_span]
                    | None => []
                    end in
      labels ++ match rhs_span with
                | Some rhs_span => [Label_primary "this expression must resolve to an object" rhs_span]
                | None => []
                end
  | op.Expr err => labels err
  end.

Definition op_error_notes (err : op.Error E) : list Note :=
  match err with
  | op.ChainedComparison _ => [SeeDocs "comparisons" (ExpressionDocsUrl "#comparison")]
  | op.Expr err => notes err
  | _ => []
  end.

#[global] Instance DiagnosticMessage_op_Error : DiagnosticMessage (op.Error E) := {
  code := op_error_code;
  message := op_error_message;
  labels := op_error_labels;
  notes := op_error_notes }.

End Diagnostics.

(** ** Construction: [Op::new] *)

Section Construction.
Context {Ctx ExpressionError E : Type}.

Definition new (lhs : Node (@Expr Ctx ExpressionError)) (opcode : Node ast.Opcode)
    (rhs : Node (@Expr Ctx ExpressionError)) : Result (@Op Ctx ExpressionError) (op.Error E) :=
  let '(op_span, opcode) := take opcode in
  let '(lhs_span, lhs) := take lhs in
  let lhs_type_def := type_def lhs in
  let '(rhs_span, rhs) := take rhs in
  if is_comparison opcode
     && match lhs with EOp (mkOp _ _ inner) => is_comparison inner | ELeaf _ => false end
  then Err (op.ChainedComparison op_span)
  else if (match opcode with ast.Err => true | _ => false end) && is_infallible lhs_type_def
  then Err (op.UnnecessaryCoalesce lhs_span rhs_span op_span)
  else if (match opcode with ast.Merge => true | _ => false end)
          && negb (is_object (type_def lhs) && is_object (type_def rhs))
  then Err (op.MergeNonObjects
              (if is_object (type_def lhs) then None else Some lhs_span)
              (if is_object (type_def rhs) then None else Some rhs_span))
  else Ok (mkOp lhs rhs opcode).

(** The first check of [new]: the expression is an [Op] node whose opcode is
    a comparison. *)
Definition is_comparison_node (e : @Expr Ctx ExpressionError) : bool :=
  match e with EOp (mkOp _ _ inner) => is_comparison inner | ELeaf _ => false end.

End Construction.

(** ** Evaluation: [Op::resolve] and [Op::resolve_batch] *)

Section Evaluation.
Context {Ctx ExpressionError VE : Type}.
Context `{VrlValueArithmetic VE} `{Into VE ExpressionError}.

Local Abbreviation Resolved := (@Resolved ExpressionError).
Local Abbreviation Expr := (@Expr Ctx ExpressionError).
Local Abbreviation Op := (@Op Ctx ExpressionError).

(** Modelled from the spec: [Value::try_or] (value crate, not among the
    sources). On [Null] or [false] it evaluates the fallback and returns its
    result; on any other value it returns that value and never runs the
    fallback. Its error is the fallback's expression error, so the
    [map_err(Into::into)] after it is the identity. *)
Definition try_or (v : Value) (rhs : Ctx -> Resolved * Ctx) (ctx : Ctx)
    : Resolved * Ctx :=
  match v with
  | Null | Boolean false => rhs ctx
  | v => (Ok v, ctx)
  end.

(** The three short-circuit arms, written once; [resolve] and the per-record
    loops of [resolve_batch] run the same code. *)

(** [self.lhs.resolve(ctx).or_else(|_| self.rhs.resolve(ctx))] *)
Definition resolve_err_arm (lhs rhs : Ctx -> Resolved * Ctx) (ctx : Ctx) : Resolved * Ctx :=
  match lhs ctx with
  | (Ok v, ctx) => (Ok v, ctx)
  | (Err _, ctx) => rhs ctx
  end.

(** [self.lhs.resolve(ctx)?.try_or(|| self.rhs.resolve(ctx)).map_err(Into::into)] *)
Definition resolve_or_arm (lhs rhs : Ctx -> Resolved * Ctx) (ctx : Ctx) : Resolved * Ctx :=
  match lhs ctx with
  | (Err e, ctx) => (Err e, ctx)
  | (Ok v, ctx) => try_or v rhs ctx
  end.

(** [match self.lhs.resolve(ctx)? { Null | Boolean(false) => Ok(false.into()),
    v => v.try_and(self.rhs.resolve(ctx)?).map_err(Into::into) }] *)
Definition resolve_and_arm (lhs rhs : Ctx -> Resolved * Ctx) (ctx : Ctx) : Resolved * Ctx :=
  match lhs ctx with
  | (Err e, ctx) => (Err e, ctx)
  | (Ok v, ctx) =>
      match v with
      | Null | Boolean false => (Ok (Boolean false), ctx)
      | v =>
          match rhs ctx with
          | (Err e, ctx) => (Err e, ctx)
          | (Ok r, ctx) => (map_err into (try_and v r), ctx)
          end
      end
  end.

(** The opcode-specific combinator applied once both operands resolved (the
    second [match self.opcode] of [resolve], repeated in [resolve_batch]). *)
Definition combine (opcode : ast.Opcode) (lhs rhs : Value) : Resolved :=
  match opcode with
  | ast.Mul => map_err into (try_mul lhs rhs)
  | ast.Div => map_err into (try_div lhs rhs)
  | ast.Add => map_err into (try_add lhs rhs)
  | ast.Sub => map_err into (try_sub lhs rhs)
  | ast.Rem => map_err into (try_rem lhs rhs)
  | ast.Eq => Ok (Boolean (eq_lossy lhs rhs))
  | ast.Ne => Ok (Boolean (negb (eq_lossy lhs rhs)))
  | ast.Gt => map_err into (try_gt lhs rhs)
  | ast.Ge => map_err into (try_ge lhs rhs)
  | ast.Lt => map_err into (try_lt lhs rhs)
  | ast.Le => map_err into (try_le lhs rhs)
  | ast.Merge => map_err into (try_merge lhs rhs)
  (* [And | Or | Err => unreachable!()]: both callers return before this
     match for these opcodes. *)
  | ast.And | ast.Or | ast.Err => Ok Null
  end.

Fixpoint resolve (e : Expr) (ctx : Ctx) : Resolved * Ctx :=
  match e with
  | ELeaf l => leaf_resolve l ctx
  | EOp o => op_resolve o ctx
  end
with op_resolve (o : Op) (ctx : Ctx) : Resolved * Ctx :=
  match o with
  | mkOp lhs rhs opcode =>
      match opcode with
      | ast.Err => resolve_err_arm (resolve lhs) (resolve rhs) ctx
      | ast.Or => resolve_or_arm (resolve lhs) (resolve rhs) ctx
      | ast.And => resolve_and_arm (resolve lhs) (resolve rhs) ctx
      | _ =>
          match resolve lhs ctx with
          | (Err e, ctx) => (Err e, ctx)
          | (Ok l, ctx) =>
              match resolve rhs ctx with
              | (Err e, ctx) => (Err e, ctx)
              | (Ok r, ctx) => (combine opcode l r, ctx)
              end
          end
      end
  end.

(** *** The batch container ([BatchContext])

    A slot is a pending result with its record's context (target, state and
    timezone); a batch is the list of its slots. *)

Definition Slot : Type := (Resolved * Ctx)%type.
Definition Batch : Type := list Slot.

(** Modelled from the spec: [BatchContext::drain_filter] (compiler crate, not
    among the sources), the order-preserving partition: it returns the slots
    whose result matches the predicate and keeps the others, each group in
    its original relative order. *)
Definition drain_filter (p : Resolved -> bool) (ctx : Batch) : Batch * Batch :=
  (filter (fun s => p (fst s)) ctx, filter (fun s => negb (p (fst s))) ctx).

(** Modelled from the spec: [BatchContext::extend] (compiler crate, not among
    the sources), the container's order-preserving merge of another batch
    into this one. The spec does not fix where the merged slots go (after
    the batch's own, or back at their records' original positions), so the
    merge is a parameter of batch evaluation; the statements below assume
    only [order_preserving_merge extend]: the result is an interleaving of
    the two batches. *)
Context (extend : Batch -> Batch -> Batch).

(** Modelled from the spec: the batch evaluation of a non-[Op] node writes
    each slot's result in place from its own record's context. *)
Definition leaf_resolve_batch (l : @Leaf Ctx ExpressionError) (ctx : Batch) : Batch :=
  map (fun s => leaf_resolve l (snd s)) ctx.

(** The loop over [ctx.iter_mut().zip(lhs)] together with the combinator
    pass: a slot whose rhs failed has its error moved into the rhs-error
    batch (with the same record handle) and [Ok(Null)] left behind; a slot
    whose rhs succeeded receives the combination of its cached lhs value and
    its rhs value. The zip stops at the shorter side. *)
Fixpoint split_rhs (opcode : ast.Opcode) (ctx : Batch) (lhs : list Resolved)
    : Batch * Batch :=
  match ctx, lhs with
  | (rhs, c) :: ctx', l :: lhs' =>
      let '(kept, rhs_err) := split_rhs opcode ctx' lhs' in
      match rhs with
      | Err e => ((Ok Null, c) :: kept, (Err e, c) :: rhs_err)
      | Ok r =>
          let resolved :=
            match l with
            | Ok l => combine opcode l r
            (* [lhs.expect("is not an error")]: the cached lhs results all
               succeeded, the failed ones were drained before. *)
            | Err e => Err e
            end in
          ((resolved, c) :: kept, rhs_err)
      end
  | ctx, [] => (ctx, [])
  | [], _ => ([], [])
  end.

Fixpoint resolve_batch (e : Expr) (ctx : Batch) : Batch :=
  match e with
  | ELeaf l => leaf_resolve_batch l ctx
  | EOp o => op_resolve_batch o ctx
  end
with op_resolve_batch (o : Op) (ctx : Batch) : Batch :=
  match o with
  | mkOp lhs rhs opcode =>
      match opcode with
      | ast.Err => map (fun s => resolve_err_arm (resolve lhs) (resolve rhs) (snd s)) ctx
      | ast.Or => map (fun s => resolve_or_arm (resolve lhs) (resolve rhs) (snd s)) ctx
      | ast.And => map (fun s => resolve_and_arm (resolve lhs) (resolve rhs) (snd s)) ctx
      | _ =>
          let ctx := resolve_batch lhs ctx in
          let '(ctx_lhs_err, ctx) := drain_filter is_err ctx in
          (* the lhs results are moved out, [Ok(Null)] left in their slots *)
          let lhs_values := map fst ctx in
          let ctx := map (fun s => (Ok Null, snd s)) ctx in
          let ctx := resolve_batch rhs ctx in
          let '(ctx, ctx_rhs_err) := split_rhs opcode ctx lhs_values in
          extend (extend ctx ctx_lhs_err) ctx_rhs_err
      end
  end.

End Evaluation.

(** ** A sample instance for concrete checks

    Records are single integers ([Ctx := Z]); errors are strings. The
    arithmetic below is only an instance of the value capability used to run
    the definitions on explicit batches. *)

Module Sample.
Local Open Scope string_scope.

Definition int_op (f : Z -> Z -> Z) (a b : Value) : Result Value string :=
  match a, b with
  | Integer x, Integer y => Ok (Integer (f x y))
  | _, _ => Err "unsupported operands"
  end.

#[global] Instance arith : VrlValueArithmetic string := {
  try_mul := int_op Z.mul; try_div := int_op Z.div; try_add := int_op Z.add;
  try_sub := int_op Z.sub; try_rem := int_op Z.rem;
  try_gt := fun a b => match a, b with Integer x, Integer y => Ok (Boolean (Z.ltb y x)) | _, _ => Err "cmp" end;
  try_ge := fun a b => match a, b with Integer x, Integer y => Ok (Boolean (Z.leb y x)) | _, _ => Err "cmp" end;
  try_lt := fun a b => match a, b with Integer x, Integer y => Ok (Boolean (Z.ltb x y)) | _, _ => Err "cmp" end;
  try_le := fun a b => match a, b with Integer x, Integer y => Ok (Boolean (Z.leb x y)) | _, _ => Err "cmp" end;
  try_merge := fun _ _ => Err "merge";
  try_and := fun a b => match a, b with Boolean x, Boolean y => Ok (Boolean (x && y)) | _, _ => Err "and" end;
  eq_lossy := fun a b => match a, b with Integer x, Integer y => Z.eqb x y | _, _ => false end }.

#[global] Instance into_string : Into string string := fun e => e.

(** The lhs reads the record: record [1] makes it fail. *)
Definition read_field : @Leaf Z string :=
  mkLeaf (fun c : Z => if Z.eqb c 1 then (Err "lhs failed", c) else (Ok (Integer c), c))
         (mkTypeDef true K_integer) None.

(** The rhs is the literal [10]. *)
Definition ten : @Leaf Z string :=
  mkLeaf (fun c : Z => (Ok (Integer 10), c)) (mkTypeDef false K_integer) (Some (Integer 10)).

Definition add_node : @Op Z string := mkOp (ELeaf read_field) (ELeaf ten) ast.Add.

(** Three records, [0], [1] and [2]; the slots start as [Ok(Null)]. *)
Definition batch3 : @Batch Z string := [(Ok Null, 0); (Ok Null, 1); (Ok Null, 2)].

(** The order-restoring reading of the container's merge for these
    batches: records are their own ids and batches list them in increasing
    order, so merging by record id puts every slot back at its record's
    position (a slot of the first batch before one of the second for the
    same record). *)
Fixpoint merge_by_record (a b : @Batch Z string) : @Batch Z string :=
  match a with
  | [] => b
  | x :: a' =>
      (fix merge_b (b : @Batch Z string) : @Batch Z string :=
         match b with
         | [] => a
         | y :: b' => if Z.leb (snd x) (snd y) then x :: merge_by_record a' b else y :: merge_b b'
         end) b
  end.

(** A node that fails on record [2]. *)
Definition fail_on_two : @Leaf Z string :=
  mkLeaf (fun c : Z => if Z.eqb c 2 then (Err "rhs failed", c) else (Ok (Integer c), c))
         (mkTypeDef true K_integer) None.

(** The record id times [100]. *)
Definition hundred_times : @Leaf Z string :=
  mkLeaf (fun c : Z => (Ok (Integer (100 * c)), c)) (mkTypeDef false K_integer) None.

(** [10 + x], [x] failing on record [2]. *)
Definition inner_add : @Op Z string := mkOp (ELeaf ten) (ELeaf fail_on_two) ast.Add.

(** [100 * id + (10 + x)]. *)
Definition outer_add : @Op Z string := mkOp (ELeaf hundred_times) (EOp inner_add) ast.Add.

(** Two records, [2] and [3]. *)
Definition batch23 : @Batch Z string := [(Ok Null, 2); (Ok Null, 3)].

(** Two records, [0] and [2]. *)
Definition batch02 : @Batch Z string := [(Ok Null, 0); (Ok Null, 2)].

(** Two records, [1] (its lhs fails) and [2]. *)
Definition batch12 : @Batch Z string := [(Ok Null, 1); (Ok Null, 2)].

(** A node typed Integer-or-Float (for instance an [if] with an integer and
    a float branch). *)
Definition int_or_float : @Leaf Z string :=
  mkLeaf (fun c : Z => (Ok (Integer c), c)) (mkTypeDef false K_integer_or_float) None.

(** A string-typed node. *)
Definition some_bytes : @Leaf Z string :=
  mkLeaf (fun c : Z => (Ok (Bytes "foo"), c)) (mkTypeDef false K_bytes) None.

(** The literal [1]. *)
Definition one : @Leaf Z string :=
  mkLeaf (fun c : Z => (Ok (Integer 1), c)) (mkTypeDef false K_integer) (Some (Integer 1)).

(** [a < b < c] as parsed: [(a < b) < c], with the spans of
    ["a < b"] (0..5), the second [<] (6..7) and [c] (8..9). *)
Definition chain_lhs : Node (@Expr Z string) :=
  mkNode (mkSpan 0 5) (EOp (mkOp (ELeaf read_field) (ELeaf ten) ast.Lt)).
Definition chain_op : Node ast.Opcode := mkNode (mkSpan 6 7) ast.Lt.
Definition chain_rhs : Node (@Expr Z string) := mkNode (mkSpan 8 9) (ELeaf ten).

(** [x | y] with two string operands, spans 0..3, 4..5 and 6..9. *)
Definition merge_lhs : Node (@Expr Z string) := mkNode (mkSpan 0 3) (ELeaf some_bytes).
Definition merge_op : Node ast.Opcode := mkNode (mkSpan 4 5) ast.Merge.
Definition merge_rhs : Node (@Expr Z string) := mkNode (mkSpan 6 9) (ELeaf some_bytes).

(** The float literal [1.5]. *)
Definition one_and_half : @Leaf Z string :=
  mkLeaf (fun c : Z => (Ok (Float 1.5%float), c)) (mkTypeDef false K_float) (Some (Float 1.5%float)).

(** Expression errors are strings here, with no diagnostic of their own. *)
#[global] Instance diagnostic_string : DiagnosticMessage string := {
  code := fun _ => 0%nat; message := fun m => m; labels := fun _ => []; notes := fun _ => [] }.

End Sample.

(** A literal the division rules accept as a divisor: a nonzero integer or a
    normal float. *)
Definition nonzero_literal (v : Value) : bool :=
  match v with
  | Integer i => negb (i =? 0)
  | Float f => is_normal f
  | _ => false
  end.

(** One case of the [Div] typing rule, once the literal and the lhs kind are
    known. *)
Ltac div_case :=
  cbn [kind fallible make_fallible infallible td_float];
  split; [reflexivity|]; split;
  [ intro; first [discriminate
                 | split; [reflexivity|eexists; split;
                                       [reflexivity|cbn [nonzero_literal]; assumption]]]
  | intros [? [? [? ?]]];
    match goal with H : Some _ = Some _ |- _ => injection H as <- end;
    cbn [nonzero_literal] in *; try congruence ].

(** ** Facts about evaluation *)

Section EvaluationFacts.
Context {Ctx ExpressionError VE : Type}.
Context `{VrlValueArithmetic VE} `{Into VE ExpressionError}.

Local Abbreviation Expr := (@Expr Ctx ExpressionError).
Local Abbreviation Slot := (@Slot Ctx ExpressionError).

(** The container's merge ([BatchContext::extend]). *)
Context (extend : list Slot -> list Slot -> list Slot).

(** The opcodes evaluated record by record ([Err], [Or], [And]). *)
Definition is_short_circuit (opcode : ast.Opcode) : bool :=
  match opcode with ast.Err | ast.Or | ast.And => true | _ => false end.

(** A node whose batch evaluation is slot-wise its single-record evaluation. *)
Definition batch_pointwise (e : Expr) : Prop :=
  forall b, resolve_batch extend e b = map (fun s => resolve e (snd s)) b.

(** The record of slot [s] makes [lhs] fail. *)
Definition lhs_fails (lhs : Expr) (s : Slot) : bool := is_err (fst (resolve lhs (snd s))).

(** The record of slot [s] makes [lhs] succeed and then [rhs] fail. *)
Definition rhs_fails (lhs rhs : Expr) (s : Slot) : bool :=
  match resolve lhs (snd s) with
  | (Ok _, c) => is_err (fst (resolve rhs c))
  | (Err _, _) => false
  end.

(** The values the [Or] and [And] arms treat as false: [Null | Boolean(false)]. *)
Definition is_falsy (v : Value) : bool :=
  match v with Null | Boolean false => true | _ => false end.

(** The lhs result alone fixes the node's result: a failure for every opcode
    but [Err], a success for [Err], a non-falsy value for [Or], a falsy one
    for [And]. *)
Definition lhs_decides (opcode : ast.Opcode) (r : @Resolved ExpressionError) : bool :=
  match opcode, r with
  | ast.Err, Ok _ => true
  | ast.Err, Err _ => false
  | ast.Or, Ok v => negb (is_falsy v)
  | ast.And, Ok v => is_falsy v
  | _, Err _ => true
  | _, Ok _ => false
  end.

Lemma op_type_def_eq (lhs rhs : Expr) (opcode : ast.Opcode) :
  op_type_def (mkOp lhs rhs opcode)
  = op_type_def_rule opcode (type_def lhs) (type_def rhs) (as_value rhs).
Proof. reflexivity. Qed.

Lemma leaf_batch_pointwise (l : @Leaf Ctx ExpressionError) : batch_pointwise (ELeaf l).
Proof. intro b. reflexivity. Qed.

Lemma op_resolve_strict (lhs rhs : Expr) (opcode : ast.Opcode) (ctx : Ctx) :
  is_short_circuit opcode = false ->
  op_resolve (mkOp lhs rhs opcode) ctx =
  match resolve lhs ctx with
  | (Err e, c) => (Err e, c)
  | (Ok l, c) =>
      match resolve rhs c with
      | (Err e, c') => (Err e, c')
      | (Ok r, c') => (combine opcode l r, c')
      end
  end.
Proof. intro Hs. destruct opcode; try discriminate Hs; reflexivity. Qed.

Lemma filter_map_comm {A B : Type} (p : B -> bool) (f : A -> B) (l : list A) :
  filter p (map f l) = map f (filter (fun x => p (f x)) l).
Proof.
  induction l as [|x l IH]; simpl; [reflexivity|].
  destruct (p (f x)); simpl; rewrite IH; reflexivity.
Qed.

Lemma filter_all_false {A : Type} (p : A -> bool) (l : list A) :
  (forall x, In x l -> p x = false) -> filter p l = [].
Proof.
  induction l as [|x l IH]; intro Hl; simpl; [reflexivity|].
  rewrite (Hl x (or_introl eq_refl)). apply IH. intros y Hy. apply Hl. now right.
Qed.

Lemma filter_filter_sub {A : Type} (p q : A -> bool) (l : list A) :
  (forall x, p x = true -> q x = true) -> filter p (filter q l) = filter p l.
Proof.
  intro Hpq. induction l as [|x l IH]; simpl; [reflexivity|].
  destruct (q x) eqn:Hq; simpl.
  - destruct (p x); rewrite IH; reflexivity.
  - destruct (p x) eqn:Hp; [rewrite (Hpq x Hp) in Hq; discriminate|exact IH].
Qed.

Lemma filter_repeat_all {A : Type} (p : A -> bool) (x : A) (n : nat) :
  filter p (repeat x n) = if p x then repeat x n else [].
Proof.
  induction n as [|n IH]; simpl; [destruct (p x); reflexivity|].
  rewrite IH. destruct (p x); reflexivity.
Qed.

Lemma map_repeat_comm {A B : Type} (f : A -> B) (x : A) (n : nat) :
  map f (repeat x n) = repeat (f x) n.
Proof. induction n as [|n IH]; simpl; [reflexivity|now rewrite IH]. Qed.

(** The rhs-error loop on slots whose lhs succeeded: the kept slots hold the
    single-record result, or [Ok(Null)] when the rhs failed; the rhs-error
    batch holds the single-record results of the records whose rhs failed. *)
Lemma split_rhs_spec (lhs rhs : Expr) (opcode : ast.Opcode) (xs : list Slot) :
  is_short_circuit opcode = false ->
  (forall s, In s xs -> lhs_fails lhs s = false) ->
  split_rhs opcode
    (map (fun s => resolve rhs (snd (resolve lhs (snd s)))) xs)
    (map (fun s => fst (resolve lhs (snd s))) xs)
  = (map (fun s => if rhs_fails lhs rhs s
                   then (Ok Null, snd (resolve rhs (snd (resolve lhs (snd s)))))
                   else op_resolve (mkOp lhs rhs opcode) (snd s)) xs,
     map (fun s => op_resolve (mkOp lhs rhs opcode) (snd s)) (filter (rhs_fails lhs rhs) xs)).
Proof.
  intros Hs. induction xs as [|x xs IH]; intro Hok; [reflexivity|].
  cbn [map split_rhs filter]. rewrite IH by (intros s Hin; apply Hok; now right).
  pose proof (Hok x (or_introl eq_refl)) as Hx.
  unfold lhs_fails in Hx. unfold rhs_fails.
  pose proof (op_resolve_strict lhs rhs opcode (snd x) Hs) as Hop.
  destruct (resolve lhs (snd x)) as [[lv|le] c1] eqn:El; [|discriminate Hx].
  destruct (resolve rhs c1) as [[rv|re] c2] eqn:Er;
    cbn [fst snd is_err map]; rewrite Hop; try rewrite El; try rewrite Er; reflexivity.
Qed.

(** [resolve_batch] of a non-short-circuit node, in terms of single-record
    evaluation: the merge of the lhs-succeeded records, the lhs-failed ones
    and the rhs-failed ones. *)
Lemma op_resolve_batch_strict (lhs rhs : Expr) (opcode : ast.Opcode) (b : list Slot) :
  is_short_circuit opcode = false ->
  batch_pointwise lhs -> batch_pointwise rhs ->
  op_resolve_batch extend (mkOp lhs rhs opcode) b =
    extend
      (extend
         (map (fun s => if rhs_fails lhs rhs s
                        then (Ok Null, snd (resolve rhs (snd (resolve lhs (snd s)))))
                        else op_resolve (mkOp lhs rhs opcode) (snd s))
              (filter (fun s => negb (lhs_fails lhs s)) b))
         (map (fun s => op_resolve (mkOp lhs rhs opcode) (snd s)) (filter (lhs_fails lhs) b)))
      (map (fun s => op_resolve (mkOp lhs rhs opcode) (snd s)) (filter (rhs_fails lhs rhs) b)).
Proof.
  intros Hs Hl Hr.
  assert (Hbody :
    op_resolve_batch extend (mkOp lhs rhs opcode) b =
    (let ctx := resolve_batch extend lhs b in
     let '(ctx_lhs_err, ctx) := drain_filter is_err ctx in
     let lhs_values := map fst ctx in
     let ctx := map (fun s => (Ok Null, snd s)) ctx in
     let ctx := resolve_batch extend rhs ctx in
     let '(ctx, ctx_rhs_err) := split_rhs opcode ctx lhs_values in
     extend (extend ctx ctx_lhs_err) ctx_rhs_err)).
  { destruct opcode; try discriminate Hs; reflexivity. }
  rewrite Hbody; clear Hbody. cbv zeta. rewrite Hl. unfold drain_filter.
  rewrite !filter_map_comm. rewrite Hr. rewrite !map_map. cbn [fst snd].
  rewrite split_rhs_spec; [|exact Hs|].
  2:{ intros s Hin. apply filter_In in Hin. destruct Hin as [_ Hin].
      unfold lhs_fails. destruct (is_err (fst (resolve lhs (snd s)))); [discriminate|reflexivity]. }
  f_equal; [f_equal|].
  - apply map_ext_in. intros s Hin. apply filter_In in Hin. destruct Hin as [_ Hin].
    unfold lhs_fails in Hin. rewrite (op_resolve_strict lhs rhs opcode (snd s) Hs).
    destruct (resolve lhs (snd s)) as [[lv|le] c1]; [discriminate|reflexivity].
  - rewrite filter_filter_sub; [reflexivity|].
    intros s Hs'. unfold rhs_fails in Hs'. unfold lhs_fails.
    destruct (resolve lhs (snd s)) as [[lv|le] c1]; [reflexivity|discriminate].
Qed.

End EvaluationFacts.

Lemma Forall2_map_self {A B : Type} (R : A -> B -> Prop) (f : A -> B) (l : list A) :
  (forall x, In x l -> R x (f x)) -> Forall2 R l (map f l).
Proof.
  induction l as [|x l IH]; intro Hl; simpl; constructor.
  - apply Hl. now left.
  - apply IH. intros y Hy. apply Hl. now right.
Qed.

Lemma interleaving_length {A : Type} (a b c : list A) :
  interleaving a b c -> List.length c = (List.length a + List.length b)%nat.
Proof. induction 1; cbn [List.length]; lia. Qed.

Lemma interleaving_in {A : Type} (a b c : list A) (x : A) :
  interleaving a b c -> (In x c <-> In x a \/ In x b).
Proof. induction 1; cbn [In]; tauto. Qed.

Lemma interleaving_nil_r {A : Type} (a c : list A) : interleaving a [] c -> c = a.
Proof.
  remember [] as e eqn:He. induction 1; [reflexivity| |discriminate He].
  rewrite IHinterleaving by exact He. reflexivity.
Qed.

Lemma interleaving_refl_l {A : Type} (a : list A) : interleaving a [] a.
Proof. induction a; constructor; assumption. Qed.

Lemma interleaving_refl_r {A : Type} (b : list A) : interleaving [] b b.
Proof. induction b; constructor; assumption. Qed.

Lemma append_order_preserving {A : Type} : @order_preserving_merge A (fun a b => a ++ b).
Proof.
  intros a b. induction a as [|x a IH]; cbn [app].
  - apply interleaving_refl_r.
  - constructor. exact IH.
Qed.

Lemma merge_by_record_order_preserving : order_preserving_merge Sample.merge_by_record.
Proof.
  intros a. induction a as [|x a IH]; intros b.
  - apply interleaving_refl_r.
  - induction b as [|y b IHb]; cbn.
    + constructor. apply interleaving_refl_l.
    + destruct (Z.leb (snd x) (snd y)).
      * constructor. apply IH.
      * constructor. exact IHb.
Qed.

Lemma filter_all_true {A : Type} (p : A -> bool) (l : list A) :
  (forall x, In x l -> p x = true) -> filter p l = l.
Proof.
  induction l as [|x l IH]; intro Hl; simpl; [reflexivity|].
  rewrite (Hl x (or_introl eq_refl)), IH; [reflexivity|]. intros y Hy. apply Hl. now right.
Qed.

Lemma filter_negb_length {A : Type} (p : A -> bool) (l : list A) :
  (List.length (filter (fun x => negb (p x)) l) + List.length (filter p l))%nat = List.length l.
Proof.
  induction l as [|x l IH]; simpl; [reflexivity|].
  destruct (p x); cbn [negb List.length]; lia.
Qed.

(** * The claims *)

Section Claims.
Context {Ctx ExpressionError VE E : Type}.
Context `{VrlValueArithmetic VE} `{Into VE ExpressionError}.

Local Abbreviation Expr := (@Expr Ctx ExpressionError).
Local Abbreviation Slot := (@Slot Ctx ExpressionError).

Context (extend : list Slot -> list Slot -> list Slot).

(** C1 (code bug): for [Err], [Or] and [And], [resolve_batch] yields at
    every slot exactly [resolve] on that slot's record. For every other
    opcode, with any order-preserving merge and operands evaluated slot-wise,
    a batch in which some record's lhs succeeds and its rhs fails comes out
    with more slots than records, so it is not slot-wise [resolve]: the
    failed record keeps an [Ok(Null)] slot and gets a second slot with its
    error. *)
Theorem resolve_batch_not_per_record (lhs rhs : Expr) (opcode : ast.Opcode) :
  (is_short_circuit opcode = true ->
     forall b : list Slot,
       op_resolve_batch extend (mkOp lhs rhs opcode) b
       = map (fun s => op_resolve (mkOp lhs rhs opcode) (snd s)) b) /\
  (order_preserving_merge extend -> is_short_circuit opcode = false ->
     batch_pointwise extend lhs -> batch_pointwise extend rhs ->
     forall b : list Slot, (exists s, In s b /\ rhs_fails lhs rhs s = true) ->
       (List.length b < List.length (op_resolve_batch extend (mkOp lhs rhs opcode) b))%nat
       /\ op_resolve_batch extend (mkOp lhs rhs opcode) b
          <> map (fun s => op_resolve (mkOp lhs rhs opcode) (snd s)) b).
Proof.
  split.
  - intros Hs b. destruct opcode; try discriminate Hs; reflexivity.
  - intros Hm Hs Hl Hr b [s [Hin Hf]].
    assert (Hlen : (List.length b < List.length (op_resolve_batch extend (mkOp lhs rhs opcode) b))%nat).
    { rewrite (op_resolve_batch_strict extend lhs rhs opcode b Hs Hl Hr).
      rewrite (interleaving_length _ _ _ (Hm _ _)), (interleaving_length _ _ _ (Hm _ _)).
      rewrite !List.length_map.
      assert (Hpos : (0 < List.length (filter (rhs_fails lhs rhs) b))%nat).
      { destruct (filter (rhs_fails lhs rhs) b) eqn:Hfil; [|cbn [List.length]; lia].
        assert (Hs' : In s (filter (rhs_fails lhs rhs) b)) by (apply filter_In; split; assumption).
        rewrite Hfil in Hs'. destruct Hs'. }
      pose proof (filter_negb_length (lhs_fails lhs) b) as Hn. unfold Slot in *. lia. }
    split; [exact Hlen|].
    intros Heq. rewrite Heq, List.length_map in Hlen. unfold Slot in *. lia.
Qed.

(** C2 (code bug): for every non-short-circuit opcode, with any
    order-preserving merge and operands evaluated slot-wise, a record whose
    lhs succeeds and whose rhs fails leaves the recombined batch holding an
    [Ok(Null)] slot for it besides the slot with its error, and the batch is
    no reordering of the records' single-record results. *)
Theorem resolve_batch_rhs_failure_breaks_order (lhs rhs : Expr) (opcode : ast.Opcode)
    (b : list Slot) (s : Slot)
    (Hm : order_preserving_merge extend) (Hs : is_short_circuit opcode = false)
    (Hl : batch_pointwise extend lhs) (Hr : batch_pointwise extend rhs)
    (Hin : In s b) (Hf : rhs_fails lhs rhs s = true) :
  In (Ok Null, snd (resolve rhs (snd (resolve lhs (snd s)))))
     (op_resolve_batch extend (mkOp lhs rhs opcode) b)
  /\ fst (op_resolve (mkOp lhs rhs opcode) (snd s)) <> Ok Null
  /\ ~ Permutation (op_resolve_batch extend (mkOp lhs rhs opcode) b)
                   (map (fun s => op_resolve (mkOp lhs rhs opcode) (snd s)) b).
Proof.
  assert (Hlok : lhs_fails lhs s = false).
  { unfold rhs_fails in Hf. unfold lhs_fails.
    destruct (resolve lhs (snd s)) as [[v|e] c]; [reflexivity|discriminate Hf]. }
  assert (Herr : is_err (fst (op_resolve (mkOp lhs rhs opcode) (snd s))) = true).
  { rewrite (op_resolve_strict lhs rhs opcode (snd s) Hs).
    unfold rhs_fails in Hf.
    destruct (resolve lhs (snd s)) as [[v|e] c]; [|discriminate Hf].
    destruct (resolve rhs c) as [[w|e] c']; [discriminate Hf|reflexivity]. }
  rewrite (op_resolve_batch_strict extend lhs rhs opcode b Hs Hl Hr).
  split; [|split].
  - apply (interleaving_in _ _ _ _ (Hm _ _)). left.
    apply (interleaving_in _ _ _ _ (Hm _ _)). left.
    apply (in_map_iff _ _ _). exists s. rewrite Hf. split; [reflexivity|].
    apply filter_In. rewrite Hlok. split; [exact Hin|reflexivity].
  - intros Hc. rewrite Hc in Herr. discriminate Herr.
  - intros Hp. apply Permutation_length in Hp.
    rewrite (interleaving_length _ _ _ (Hm _ _)), (interleaving_length _ _ _ (Hm _ _)) in Hp.
    rewrite !List.length_map in Hp.
    assert (Hs' : In s (filter (rhs_fails lhs rhs) b)) by (apply filter_In; split; assumption).
    destruct (filter (rhs_fails lhs rhs) b) eqn:Hfil; [destruct Hs'|].
    pose proof (filter_negb_length (lhs_fails lhs) b). cbn [List.length] in Hp. unfold Slot in *. lia.
Qed.

End Claims.

Section StaticClaims.
Context {Ctx ExpressionError VE E : Type}.
Context `{VrlValueArithmetic VE} `{Into VE ExpressionError}.

Local Abbreviation Expr := (@Expr Ctx ExpressionError).

(** C3 (as amended): [type_def] of a [Div] node always has kind Float; it is
    infallible exactly when the lhs kind is exactly Integer or exactly Float
    and the rhs is a literal nonzero integer or normal float; otherwise
    (a lhs that may be either Integer or Float included) it is fallible. *)
Theorem div_type_def (lhs rhs : Expr) :
  kind (op_type_def (mkOp lhs rhs ast.Div)) = K_float /\
  (fallible (op_type_def (mkOp lhs rhs ast.Div)) = false <->
     (is_integer (type_def lhs) || is_float (type_def lhs)) = true
     /\ exists v, as_value rhs = Some v /\ nonzero_literal v = true).
Proof.
  rewrite op_type_def_eq. unfold op_type_def_rule.
  destruct (as_value rhs) as [v|].
  - destruct (is_float (type_def lhs)) eqn:Hf, (is_integer (type_def lhs)) eqn:Hi;
      cbn [orb];
      [ destruct v; cbn [nonzero_literal];
        try destruct (is_normal f) eqn:Hn; try destruct (negb (i =? 0)) eqn:Hn; div_case
      | destruct v; cbn [nonzero_literal];
        try destruct (is_normal f) eqn:Hn; try destruct (negb (i =? 0)) eqn:Hn; div_case
      | destruct v; cbn [nonzero_literal];
        try destruct (is_normal f) eqn:Hn; try destruct (negb (i =? 0)) eqn:Hn; div_case
      | split; [reflexivity|]; split; [intro Hc; discriminate Hc|intros [Hc _]; discriminate Hc] ].
  - split; [reflexivity|]. split; [intro Hc; discriminate Hc|].
    intros [_ [w [Hw _]]]. discriminate Hw.
Qed.

(** C4 (as amended): [type_def] of a [Rem] node whose lhs kind is exactly
    Integer or exactly Float and whose rhs is a literal float is Float,
    infallible iff the float is normal; with a literal integer rhs it is
    Integer, infallible iff the integer is nonzero; with any other rhs
    (no literal, a literal of another kind) or any other lhs kind it is
    Integer-or-Float and fallible. *)
Theorem rem_type_def (lhs rhs : Expr) :
  let td := op_type_def (mkOp lhs rhs ast.Rem) in
  let numeric := is_float (type_def lhs) || is_integer (type_def lhs) in
  (numeric = true -> forall f, as_value rhs = Some (Float f) ->
     td = if is_normal f then td_float else make_fallible td_float) /\
  (numeric = true -> forall i, as_value rhs = Some (Integer i) ->
     td = if i =? 0 then make_fallible td_integer else td_integer) /\
  ((numeric = false
    \/ as_value rhs = None
    \/ exists v, as_value rhs = Some v
                 /\ match v with Float _ | Integer _ => False | _ => True end) ->
     td = make_fallible (add_integer td_float)).
Proof.
  cbn zeta. rewrite op_type_def_eq. unfold op_type_def_rule.
  split; [|split].
  - intros Hn f Hv. rewrite Hv, Hn. destruct (is_normal f); reflexivity.
  - intros Hn i Hv. rewrite Hv, Hn. destruct (i =? 0); reflexivity.
  - intros [Hn | [Hv | [v [Hv Hk]]]].
    + destruct (as_value rhs); [rewrite Hn|]; reflexivity.
    + rewrite Hv. reflexivity.
    + rewrite Hv. destruct (is_float (type_def lhs) || is_integer (type_def lhs));
        [destruct v; try contradiction|]; reflexivity.
Qed.

(** C5 (as amended): [Op::new] with a comparison opcode whose lhs is a
    comparison node fails with [ChainedComparison] carrying the span of the
    outer operator, the opcode node passed to [new]. *)
Theorem chained_comparison_outer_span (lhs : Node Expr) (opcode : Node ast.Opcode)
    (rhs : Node Expr) (a b : Expr) (inner_opcode : ast.Opcode)
    (Hop : is_comparison (inner opcode) = true)
    (Hlhs : inner lhs = EOp (mkOp a b inner_opcode))
    (Hinner : is_comparison inner_opcode = true) :
  @new Ctx ExpressionError E lhs opcode rhs = Err (op.ChainedComparison (span opcode)).
Proof.
  destruct lhs as [lsp l], opcode as [osp o], rhs as [rsp r].
  cbn [inner span] in *. subst l.
  unfold new, take. cbn [span inner]. rewrite Hop, Hinner. reflexivity.
Qed.

(** C6: [resolve] of an [Or] node evaluates the lhs first and propagates its
    failure; on success it evaluates and returns the rhs exactly when the
    value is [Null] or [false], and otherwise returns the lhs value with the
    rhs not evaluated. *)
Theorem or_resolve (lhs rhs : Expr) (ctx : Ctx) :
  op_resolve (mkOp lhs rhs ast.Or) ctx =
  match resolve lhs ctx with
  | (Err e, c) => (Err e, c)
  | (Ok v, c) =>
      match v with
      | Null | Boolean false => resolve rhs c
      | v => (Ok v, c)
      end
  end.
Proof.
  change (op_resolve (mkOp lhs rhs ast.Or) ctx)
    with (resolve_or_arm (resolve lhs) (resolve rhs) ctx).
  unfold resolve_or_arm, try_or.
  destruct (resolve lhs ctx) as [[v|e] c]; [|reflexivity].
  destruct v as [| | |[|]| | | | |]; reflexivity.
Qed.

(** C7: [Op::new] with the [Merge] opcode fails with [MergeNonObjects] when
    either operand's kind is not exactly Object, carrying the span of each
    operand that is not an object and only those. *)
Theorem merge_non_objects (lhs : Node Expr) (opcode : Node ast.Opcode) (rhs : Node Expr)
    (Hop : inner opcode = ast.Merge)
    (Hkinds : (is_object (type_def (inner lhs)) && is_object (type_def (inner rhs))) = false) :
  @new Ctx ExpressionError E lhs opcode rhs
  = Err (op.MergeNonObjects
           (if is_object (type_def (inner lhs)) then None else Some (span lhs))
           (if is_object (type_def (inner rhs)) then None else Some (span rhs))).
Proof.
  destruct lhs as [lsp l], opcode as [osp o], rhs as [rsp r].
  cbn [inner span] in *. subst o.
  unfold new, take. cbn [span inner is_comparison andb].
  rewrite Hkinds. reflexivity.
Qed.

(** C8: [Op::new] fails with [UnnecessaryCoalesce] carrying the lhs, rhs and
    operator spans exactly when the opcode is [Err] and the lhs type is
    infallible. *)
Theorem unnecessary_coalesce_iff (lhs : Node Expr) (opcode : Node ast.Opcode) (rhs : Node Expr) :
  ((inner opcode = ast.Err /\ is_infallible (type_def (inner lhs)) = true) ->
     @new Ctx ExpressionError E lhs opcode rhs
     = Err (op.UnnecessaryCoalesce (span lhs) (span rhs) (span opcode))) /\
  (forall s1 s2 s3,
     @new Ctx ExpressionError E lhs opcode rhs = Err (op.UnnecessaryCoalesce s1 s2 s3) ->
     inner opcode = ast.Err /\ is_infallible (type_def (inner lhs)) = true).
Proof.
  destruct lhs as [lsp l], opcode as [osp o], rhs as [rsp r]. cbn [inner span].
  unfold new, take. cbn [span inner]. split.
  - intros [-> Hi]. cbn [is_comparison andb]. rewrite Hi. reflexivity.
  - intros s1 s2 s3 Hnew.
    destruct (is_comparison o && match l with EOp (mkOp _ _ i) => is_comparison i | ELeaf _ => false end);
      [discriminate Hnew|].
    destruct o; cbn [andb] in Hnew;
      try (destruct (negb (is_object (type_def l) && is_object (type_def r))); discriminate Hnew).
    destruct (is_infallible (type_def l)); [split; reflexivity|discriminate Hnew].
Qed.

(** C9: for every opcode other than [Err], [Or] and [And], [resolve]
    evaluates the lhs first and returns its error without evaluating the
    rhs; the rhs is evaluated, in the context the lhs left, only after the
    lhs succeeded. *)
Theorem strict_lhs_first (lhs rhs : Expr) (opcode : ast.Opcode) (ctx : Ctx)
    (Hs : is_short_circuit opcode = false) :
  (forall e c, resolve lhs ctx = (Err e, c) ->
     op_resolve (mkOp lhs rhs opcode) ctx = (Err e, c)) /\
  (forall v c, resolve lhs ctx = (Ok v, c) ->
     op_resolve (mkOp lhs rhs opcode) ctx =
     match resolve rhs c with
     | (Err e, c') => (Err e, c')
     | (Ok r, c') => (combine opcode v r, c')
     end).
Proof.
  rewrite (op_resolve_strict lhs rhs opcode ctx Hs).
  split; intros ? ? Hl; rewrite Hl; reflexivity.
Qed.

End StaticClaims.

(** C10: the construction errors have the codes 650 ([ChainedComparison]),
    651 ([UnnecessaryCoalesce]) and 652 ([MergeNonObjects]); the wrapped
    expression error forwards its code, message, labels and notes. *)
Theorem diagnostic_codes {E : Type} `{DiagnosticMessage E} :
  (forall s, code (op.ChainedComparison s : op.Error E) = 650%nat) /\
  (forall s1 s2 s3, code (op.UnnecessaryCoalesce s1 s2 s3 : op.Error E) = 651%nat) /\
  (forall s1 s2, code (op.MergeNonObjects s1 s2 : op.Error E) = 652%nat) /\
  (forall err : E,
     code (op.Expr err) = code err /\ message (op.Expr err) = message err /\
     labels (op.Expr err) = labels err /\ notes (op.Expr err) = notes err).
Proof. repeat split. Qed.

(** * Further properties of the operator node *)

(** ** Kinds, field by field *)

Lemma implb_orb_l (x y : bool) : implb x (x || y) = true.
Proof. destruct x, y; reflexivity. Qed.

Lemma implb_orb_r (x y : bool) : implb y (x || y) = true.
Proof. destruct x, y; reflexivity. Qed.

Lemma implb_refl (x : bool) : implb x x = true.
Proof. destruct x; reflexivity. Qed.

Lemma implb_antisym (x y : bool) : implb x y = true -> implb y x = true -> x = y.
Proof. destruct x, y; cbn; congruence. Qed.

Ltac kind_fields :=
  unfold k_is_superset, k_union, remove_null;
  cbn [kind fallible k_bytes k_integer k_float k_boolean k_timestamp
       k_regex k_null k_array k_object].

Lemma k_superset_refl (a : Kind) : k_is_superset a a = true.
Proof. destruct a. kind_fields. rewrite !implb_refl. reflexivity. Qed.

Lemma k_union_superset_l (a b : Kind) : k_is_superset (k_union a b) a = true.
Proof. destruct a, b. kind_fields. rewrite !implb_orb_l. reflexivity. Qed.

Lemma k_union_superset_r (a b : Kind) : k_is_superset (k_union a b) b = true.
Proof. destruct a, b. kind_fields. rewrite !implb_orb_r. reflexivity. Qed.

Lemma k_union_remove_null_superset (l r : TypeDef) :
  k_is_superset (k_union (kind l) (kind r)) (k_union (kind (remove_null l)) (kind r)) = true.
Proof.
  destruct l as [fl [? ? ? ? ? ? ? ? ?]], r as [fr [? ? ? ? ? ? ? ? ?]].
  kind_fields. cbn [orb]. rewrite !implb_refl, implb_orb_r. reflexivity.
Qed.

Lemma k_eqb_eq (a b : Kind) : k_eqb a b = true -> a = b.
Proof.
  destruct a, b. unfold k_eqb. kind_fields. intro Hab.
  repeat match goal with H : _ && _ = true |- _ => apply andb_prop in H; destruct H end.
  f_equal; apply implb_antisym; assumption.
Qed.

Lemma td_is_superset_null (td : TypeDef) : td_is_superset td K_null = k_null (kind td).
Proof.
  destruct td as [f [? ? ? ? ? ? n ? ?]]. unfold td_is_superset. kind_fields.
  destruct n; reflexivity.
Qed.

Lemma fallible_unless_fallible (td : TypeDef) (k : Kind) :
  fallible (fallible_unless td k) = fallible td || negb (k_is_superset k (kind td)).
Proof.
  unfold fallible_unless. destruct (k_is_superset k (kind td)); cbn [negb fallible make_fallible].
  - now rewrite orb_false_r.
  - now rewrite orb_true_r.
Qed.

Lemma fallible_unless_kind (td : TypeDef) (k : Kind) :
  kind (fallible_unless td k) = kind td.
Proof. unfold fallible_unless. destruct (k_is_superset k (kind td)); reflexivity. Qed.

Section Extras.
Context {Ctx ExpressionError VE E : Type}.
Context `{VrlValueArithmetic VE} `{Into VE ExpressionError}.

Local Abbreviation Expr := (@Expr Ctx ExpressionError).
Local Abbreviation Slot := (@Slot Ctx ExpressionError).

(** ** Static typing *)

(** [type_def] of [lhs ?? rhs] has the union of the operands' kinds and is
    fallible exactly when the rhs is: whatever the lhs, an infallible
    fallback makes the expression infallible. *)
Theorem err_type_def (lhs rhs : Expr) :
  kind (op_type_def (mkOp lhs rhs ast.Err)) = k_union (kind (type_def lhs)) (kind (type_def rhs)) /\
  fallible (op_type_def (mkOp lhs rhs ast.Err)) = fallible (type_def rhs).
Proof.
  rewrite op_type_def_eq. unfold op_type_def_rule, is_infallible.
  destruct (fallible (type_def rhs)) eqn:Hr;
    cbn [negb fallible kind infallible merge_deep]; rewrite ?Hr, ?orb_true_r; split; reflexivity.
Qed.

(** [type_def] of [lhs || rhs]: the rhs type when the lhs is exactly Null;
    the lhs type when the lhs can be neither Null nor Boolean; always a kind
    within the union of the operands' kinds, fallible only if an operand is,
    and possibly Null only if the rhs may be Null. *)
Theorem or_type_def (lhs rhs : Expr) :
  let td := op_type_def (mkOp lhs rhs ast.Or) in
  (is_null (type_def lhs) = true -> td = type_def rhs) /\
  (td_is_superset (type_def lhs) K_null = false ->
   td_is_superset (type_def lhs) K_boolean = false -> td = type_def lhs) /\
  k_is_superset (k_union (kind (type_def lhs)) (kind (type_def rhs))) (kind td) = true /\
  (fallible td = true -> fallible (type_def lhs) = true \/ fallible (type_def rhs) = true) /\
  (k_null (kind td) = true -> k_null (kind (type_def rhs)) = true).
Proof.
  cbn zeta. rewrite op_type_def_eq. unfold op_type_def_rule.
  generalize (type_def lhs) (type_def rhs). intros l r.
  destruct (is_null l) eqn:Hn.
  - assert (Hln : td_is_superset l K_null = true).
    { unfold is_null, k_eqb in Hn. apply andb_prop in Hn. apply Hn. }
    split; [reflexivity|]. split; [intros Hc; rewrite Hln in Hc; discriminate Hc|].
    split; [apply k_union_superset_r|]. split; [intros Hf; now right|]. intros Hk; exact Hk.
  - destruct (td_is_superset l K_null || td_is_superset l K_boolean) eqn:Hs; cbn [negb].
    + destruct (is_boolean l) eqn:Hb; cbn [negb].
      * pose proof (k_eqb_eq _ _ Hb) as Hkb.
        split; [intros Hc; discriminate Hc|].
        split; [intros H1 H2; rewrite H1, H2 in Hs; discriminate Hs|].
        split; [apply k_superset_refl|].
        split; [cbn [fallible merge_deep]; intro Hf; now apply orb_true_iff in Hf|].
        cbn [kind merge_deep k_union k_null]. rewrite Hkb. cbn. intros Hk; exact Hk.
      * split; [intros Hc; discriminate Hc|].
        split; [intros H1 H2; rewrite H1, H2 in Hs; discriminate Hs|].
        split; [apply k_union_remove_null_superset|].
        split; [cbn [fallible merge_deep remove_null]; intro Hf; now apply orb_true_iff in Hf|].
        cbn [kind merge_deep k_union k_null remove_null orb]. intros Hk; exact Hk.
    + split; [intros Hc; discriminate Hc|].
      split; [intros; reflexivity|].
      split; [apply k_union_superset_l|].
      split; [intros Hf; now left|].
      apply orb_false_iff in Hs. destruct Hs as [Hs _].
      rewrite td_is_superset_null in Hs. rewrite Hs. intros Hc; discriminate Hc.
Qed.

(** [type_def] of [lhs && rhs] is infallible exactly when the rhs is
    infallible and within Null-or-Boolean and the lhs is either exactly Null
    or infallible and within Null-or-Boolean. *)
Theorem and_type_def (lhs rhs : Expr) :
  fallible (op_type_def (mkOp lhs rhs ast.And)) = false <->
  (is_null (type_def lhs) = true
   \/ (fallible (type_def lhs) = false
       /\ k_is_superset K_null_or_boolean (kind (type_def lhs)) = true))
  /\ fallible (type_def rhs) = false
  /\ k_is_superset K_null_or_boolean (kind (type_def rhs)) = true.
Proof.
  rewrite op_type_def_eq. unfold op_type_def_rule.
  generalize (type_def lhs) (type_def rhs). intros l r.
  destruct (is_null l) eqn:Hn; cbn [with_kind fallible merge_deep];
    rewrite ?fallible_unless_fallible;
    destruct (fallible l), (fallible r), (k_is_superset K_null_or_boolean (kind l)),
             (k_is_superset K_null_or_boolean (kind r));
    cbn; intuition congruence.
Qed.

(** Equality, the comparisons and [&&] are typed exactly Boolean; [==] and
    [!=] are fallible exactly when an operand is. *)
Theorem boolean_ops_type_def (lhs rhs : Expr) :
  (forall opcode, is_comparison opcode = true \/ opcode = ast.And ->
     kind (op_type_def (mkOp lhs rhs opcode)) = K_boolean) /\
  (forall opcode, opcode = ast.Eq \/ opcode = ast.Ne ->
     fallible (op_type_def (mkOp lhs rhs opcode))
     = fallible (type_def lhs) || fallible (type_def rhs)).
Proof.
  split.
  - intros opcode Hop. rewrite op_type_def_eq. unfold op_type_def_rule.
    destruct opcode; destruct Hop as [Hop|Hop]; try discriminate Hop;
      repeat match goal with |- context [if ?c then _ else _] => destruct c end;
      reflexivity.
  - intros opcode [-> | ->]; reflexivity.
Qed.

(** [type_def] of [>], [>=], [<] and [<=] is infallible exactly when both
    operands are infallible and either both are exactly Bytes or both are
    within Integer-or-Float. *)
Theorem comparison_type_def (lhs rhs : Expr) (opcode : ast.Opcode)
    (Hop : opcode = ast.Gt \/ opcode = ast.Ge \/ opcode = ast.Lt \/ opcode = ast.Le) :
  fallible (op_type_def (mkOp lhs rhs opcode)) = false <->
  fallible (type_def lhs) = false /\ fallible (type_def rhs) = false /\
  ((is_bytes (type_def lhs) && is_bytes (type_def rhs)) = true
   \/ (k_is_superset K_integer_or_float (kind (type_def lhs)) = true
       /\ k_is_superset K_integer_or_float (kind (type_def rhs)) = true)).
Proof.
  rewrite op_type_def_eq.
  destruct Hop as [-> | [-> | [-> | ->]]]; unfold op_type_def_rule;
    generalize (type_def lhs) (type_def rhs); intros l r;
    destruct (is_bytes l && is_bytes r); cbn [with_kind fallible merge_deep];
    rewrite ?fallible_unless_fallible;
    destruct (fallible l), (fallible r), (k_is_superset K_integer_or_float (kind l)),
             (k_is_superset K_integer_or_float (kind r));
    cbn; intuition congruence.
Qed.

(** [lhs + rhs] with an operand exactly Bytes is typed Bytes, infallible
    exactly when both operands are infallible and within Bytes-or-Null. *)
Theorem add_bytes_type_def (lhs rhs : Expr)
    (Hb : (is_bytes (type_def lhs) || is_bytes (type_def rhs)) = true) :
  kind (op_type_def (mkOp lhs rhs ast.Add)) = K_bytes /\
  (fallible (op_type_def (mkOp lhs rhs ast.Add)) = false <->
   fallible (type_def lhs) = false /\ fallible (type_def rhs) = false /\
   k_is_superset K_bytes_or_null (kind (type_def lhs)) = true /\
   k_is_superset K_bytes_or_null (kind (type_def rhs)) = true).
Proof.
  rewrite op_type_def_eq. unfold op_type_def_rule. rewrite Hb.
  cbn [with_kind fallible kind merge_deep]. split; [reflexivity|].
  rewrite !fallible_unless_fallible.
  generalize (type_def lhs) (type_def rhs); intros l r.
  destruct (fallible l), (fallible r), (k_is_superset K_bytes_or_null (kind l)),
           (k_is_superset K_bytes_or_null (kind r));
    cbn; intuition congruence.
Qed.

(** [-], [*], and [+] without a Bytes operand, with an operand exactly Float,
    are typed Float, infallible exactly when both operands are infallible and
    within Integer-or-Float. *)
Theorem float_arith_type_def (lhs rhs : Expr) (opcode : ast.Opcode)
    (Hop : opcode = ast.Sub \/ opcode = ast.Mul
           \/ (opcode = ast.Add /\ (is_bytes (type_def lhs) || is_bytes (type_def rhs)) = false))
    (Hf : (is_float (type_def lhs) || is_float (type_def rhs)) = true) :
  kind (op_type_def (mkOp lhs rhs opcode)) = K_float /\
  (fallible (op_type_def (mkOp lhs rhs opcode)) = false <->
   fallible (type_def lhs) = false /\ fallible (type_def rhs) = false /\
   k_is_superset K_integer_or_float (kind (type_def lhs)) = true /\
   k_is_superset K_integer_or_float (kind (type_def rhs)) = true).
Proof.
  rewrite op_type_def_eq.
  assert (Hrule : op_type_def_rule opcode (type_def lhs) (type_def rhs) (as_value rhs)
                  = with_kind (merge_deep (fallible_unless (type_def lhs) K_integer_or_float)
                                          (fallible_unless (type_def rhs) K_integer_or_float)) K_float).
  { destruct Hop as [-> | [-> | [-> Hb]]]; unfold op_type_def_rule; rewrite ?Hb, Hf; reflexivity. }
  rewrite Hrule. cbn [with_kind fallible kind merge_deep]. split; [reflexivity|].
  rewrite !fallible_unless_fallible.
  generalize (type_def lhs) (type_def rhs); intros l r.
  destruct (fallible l), (fallible r), (k_is_superset K_integer_or_float (kind l)),
           (k_is_superset K_integer_or_float (kind r));
    cbn; intuition congruence.
Qed.

(** [+], [-] and [*] of two operands exactly Integer are typed Integer,
    fallible exactly when an operand is. *)
Theorem integer_arith_type_def (lhs rhs : Expr) (opcode : ast.Opcode)
    (Hop : opcode = ast.Add \/ opcode = ast.Sub \/ opcode = ast.Mul)
    (Hi : (is_integer (type_def lhs) && is_integer (type_def rhs)) = true) :
  op_type_def (mkOp lhs rhs opcode)
  = mkTypeDef (fallible (type_def lhs) || fallible (type_def rhs)) K_integer.
Proof.
  apply andb_prop in Hi. destruct Hi as [Hil Hir].
  pose proof (k_eqb_eq _ _ Hil) as Kl. pose proof (k_eqb_eq _ _ Hir) as Kr.
  assert (Hbl : is_bytes (type_def lhs) = false) by (unfold is_bytes; rewrite Kl; reflexivity).
  assert (Hbr : is_bytes (type_def rhs) = false) by (unfold is_bytes; rewrite Kr; reflexivity).
  assert (Hfl : is_float (type_def lhs) = false) by (unfold is_float; rewrite Kl; reflexivity).
  assert (Hfr : is_float (type_def rhs) = false) by (unfold is_float; rewrite Kr; reflexivity).
  rewrite op_type_def_eq.
  destruct Hop as [-> | [-> | ->]]; unfold op_type_def_rule;
    rewrite ?Hbl, ?Hbr, ?Hfl, ?Hfr, ?Hil, ?Hir; reflexivity.
Qed.

(** [*] of an operand exactly Bytes and one exactly Integer, in either
    order, is typed Bytes, fallible exactly when an operand is. *)
Theorem mul_bytes_type_def (lhs rhs : Expr)
    (Hk : (is_bytes (type_def lhs) && is_integer (type_def rhs)
           || is_integer (type_def lhs) && is_bytes (type_def rhs)) = true) :
  op_type_def (mkOp lhs rhs ast.Mul)
  = mkTypeDef (fallible (type_def lhs) || fallible (type_def rhs)) K_bytes.
Proof.
  rewrite op_type_def_eq. unfold op_type_def_rule.
  apply orb_true_iff in Hk.
  destruct Hk as [Hk|Hk]; apply andb_prop in Hk; destruct Hk as [Ha Hb];
    pose proof (k_eqb_eq _ _ Ha) as Ka; pose proof (k_eqb_eq _ _ Hb) as Kb;
    unfold is_float, is_integer, is_bytes; rewrite Ka, Kb; reflexivity.
Qed.

(** The arithmetic operators never leave their number-or-string kinds:
    [-] and [%] are typed within Integer-or-Float, [+] and [*] within
    Bytes-Integer-or-Float. *)
Theorem arith_kind_bounds (lhs rhs : Expr) :
  k_is_superset K_integer_or_float (kind (op_type_def (mkOp lhs rhs ast.Sub))) = true /\
  k_is_superset K_integer_or_float (kind (op_type_def (mkOp lhs rhs ast.Rem))) = true /\
  k_is_superset (k_union (k_union K_bytes K_integer) K_float)
                (kind (op_type_def (mkOp lhs rhs ast.Add))) = true /\
  k_is_superset (k_union (k_union K_bytes K_integer) K_float)
                (kind (op_type_def (mkOp lhs rhs ast.Mul))) = true.
Proof.
  rewrite !op_type_def_eq. unfold op_type_def_rule.
  repeat split;
    try (destruct (as_value rhs) as [v|]; [destruct v|]);
    repeat match goal with |- context [if ?c then _ else _] => destruct c end;
    reflexivity.
Qed.

(** ** Evaluation *)

(** [resolve] of [lhs != rhs] is the negation of [lhs == rhs], with the same
    context; [==] never fails once both operands resolved. *)
Theorem ne_negates_eq (lhs rhs : Expr) (ctx : Ctx) :
  op_resolve (mkOp lhs rhs ast.Ne) ctx =
  match op_resolve (mkOp lhs rhs ast.Eq) ctx with
  | (Ok (Boolean b), c) => (Ok (Boolean (negb b)), c)
  | r => r
  end /\
  (forall v c w c', resolve lhs ctx = (Ok v, c) -> resolve rhs c = (Ok w, c') ->
     exists b, op_resolve (mkOp lhs rhs ast.Eq) ctx = (Ok (Boolean b), c')).
Proof.
  rewrite (op_resolve_strict lhs rhs ast.Ne ctx eq_refl), (op_resolve_strict lhs rhs ast.Eq ctx eq_refl). split.
  - destruct (resolve lhs ctx) as [[v|e] c]; [|reflexivity].
    destruct (resolve rhs c) as [[w|e] c']; reflexivity.
  - intros v c w c' Hl Hr. rewrite Hl, Hr. eexists. reflexivity.
Qed.

(** When the lhs result alone decides the node (see [lhs_decides]), the rhs
    has no influence: any other rhs gives the same result and context. *)
Theorem lhs_decides_rhs_irrelevant (lhs rhs rhs' : Expr) (opcode : ast.Opcode) (ctx : Ctx)
    (Hd : lhs_decides opcode (fst (resolve lhs ctx)) = true) :
  op_resolve (mkOp lhs rhs opcode) ctx = op_resolve (mkOp lhs rhs' opcode) ctx.
Proof.
  destruct (is_short_circuit opcode) eqn:Hs.
  - destruct opcode; try discriminate Hs;
      change (op_resolve (mkOp lhs ?r ast.Err) ctx) with (resolve_err_arm (resolve lhs) (resolve r) ctx);
      change (op_resolve (mkOp lhs ?r ast.Or) ctx) with (resolve_or_arm (resolve lhs) (resolve r) ctx);
      change (op_resolve (mkOp lhs ?r ast.And) ctx) with (resolve_and_arm (resolve lhs) (resolve r) ctx);
      unfold resolve_err_arm, resolve_or_arm, resolve_and_arm, try_or;
      destruct (resolve lhs ctx) as [[v|e] c]; cbn [fst lhs_decides] in Hd;
      try discriminate Hd; try reflexivity;
      destruct v as [| | |[|]| | | | |]; cbn in Hd; try discriminate Hd; reflexivity.
  - rewrite !(op_resolve_strict lhs _ opcode ctx Hs).
    destruct (resolve lhs ctx) as [[v|e] c]; [|reflexivity].
    destruct opcode; discriminate.
Qed.

(** ** Batch evaluation *)

(** With any order-preserving merge and operands evaluated slot-wise, a
    batch in which no record's lhs or rhs fails is evaluated slot-wise, in
    the batch's order, for every opcode. *)
Theorem resolve_batch_no_failure (extend : list Slot -> list Slot -> list Slot)
    (lhs rhs : Expr) (opcode : ast.Opcode) (b : list Slot)
    (Hm : order_preserving_merge extend)
    (Hl : batch_pointwise extend lhs) (Hr : batch_pointwise extend rhs)
    (Hok : forall s, In s b -> lhs_fails lhs s = false /\ rhs_fails lhs rhs s = false) :
  op_resolve_batch extend (mkOp lhs rhs opcode) b
  = map (fun s => op_resolve (mkOp lhs rhs opcode) (snd s)) b.
Proof.
  destruct (is_short_circuit opcode) eqn:Hs.
  - destruct opcode; try discriminate Hs; reflexivity.
  - rewrite (op_resolve_batch_strict extend lhs rhs opcode b Hs Hl Hr).
    rewrite (filter_all_false (lhs_fails lhs) b) by (intros s Hin; apply Hok, Hin).
    rewrite (filter_all_false (rhs_fails lhs rhs) b) by (intros s Hin; apply Hok, Hin).
    rewrite filter_all_true by (intros s Hin; destruct (Hok s Hin) as [-> _]; reflexivity).
    cbn [map]. rewrite !(interleaving_nil_r _ _ (Hm _ [])).
    apply map_ext_in. intros s Hin. destruct (Hok s Hin) as [_ ->]. reflexivity.
Qed.

(** With any order-preserving merge and operands evaluated slot-wise, the
    batch output of a non-short-circuit node has one slot more than the input
    per record whose rhs failed; the batch output of [Err], [Or] and [And]
    has as many slots as the input. *)
Theorem resolve_batch_length (extend : list Slot -> list Slot -> list Slot)
    (lhs rhs : Expr) (opcode : ast.Opcode) (b : list Slot)
    (Hm : order_preserving_merge extend)
    (Hl : batch_pointwise extend lhs) (Hr : batch_pointwise extend rhs) :
  List.length (op_resolve_batch extend (mkOp lhs rhs opcode) b)
  = (List.length b + if is_short_circuit opcode then 0 else List.length (filter (rhs_fails lhs rhs) b))%nat.
Proof.
  destruct (is_short_circuit opcode) eqn:Hs.
  - rewrite Nat.add_0_r.
    destruct opcode; try discriminate Hs; apply List.length_map.
  - rewrite (op_resolve_batch_strict extend lhs rhs opcode b Hs Hl Hr).
    rewrite (interleaving_length _ _ _ (Hm _ _)), (interleaving_length _ _ _ (Hm _ _)).
    rewrite !List.length_map.
    rewrite <- (filter_negb_length (lhs_fails lhs) b). reflexivity.
Qed.

(** With any order-preserving merge and operands evaluated slot-wise, a
    record whose lhs succeeds and rhs fails in a non-short-circuit node
    appears twice in the batch output: once as [Ok(Null)] and once with its
    rhs error. *)
Theorem resolve_batch_rhs_failure_twice (extend : list Slot -> list Slot -> list Slot)
    (lhs rhs : Expr) (opcode : ast.Opcode) (b : list Slot) (s : Slot)
    (Hm : order_preserving_merge extend)
    (Hs : is_short_circuit opcode = false)
    (Hl : batch_pointwise extend lhs) (Hr : batch_pointwise extend rhs)
    (Hin : In s b) (Hf : rhs_fails lhs rhs s = true) :
  In (Ok Null, snd (resolve rhs (snd (resolve lhs (snd s)))))
     (op_resolve_batch extend (mkOp lhs rhs opcode) b)
  /\ In (op_resolve (mkOp lhs rhs opcode) (snd s)) (op_resolve_batch extend (mkOp lhs rhs opcode) b)
  /\ is_err (fst (op_resolve (mkOp lhs rhs opcode) (snd s))) = true.
Proof.
  assert (Hlok : lhs_fails lhs s = false).
  { unfold rhs_fails in Hf. unfold lhs_fails.
    destruct (resolve lhs (snd s)) as [[v|e] c]; [reflexivity|discriminate Hf]. }
  rewrite (op_resolve_batch_strict extend lhs rhs opcode b Hs Hl Hr).
  split; [|split].
  - apply (interleaving_in _ _ _ _ (Hm _ _)). left.
    apply (interleaving_in _ _ _ _ (Hm _ _)). left.
    apply (in_map_iff _ _ _). exists s. rewrite Hf. split; [reflexivity|].
    apply filter_In. rewrite Hlok. split; [exact Hin|reflexivity].
  - apply (interleaving_in _ _ _ _ (Hm _ _)). right.
    apply (in_map (fun x => op_resolve (mkOp lhs rhs opcode) (snd x))). apply filter_In. split; assumption.
  - rewrite (op_resolve_strict lhs rhs opcode (snd s) Hs).
    unfold rhs_fails in Hf.
    destruct (resolve lhs (snd s)) as [[v|e] c]; [|discriminate Hf].
    destruct (resolve rhs c) as [[w|e] c']; [discriminate Hf|reflexivity].
Qed.

(** ** Construction *)

(** [Op::new] succeeds exactly when none of its three checks fires (no
    comparison chained on a comparison, no [??] after an infallible lhs, no
    [|] of operands not both exactly Object), and then stores the operands
    and the opcode unchanged. *)
Theorem new_ok_iff (lhs : Node Expr) (opcode : Node ast.Opcode) (rhs : Node Expr) :
  (forall o, @new Ctx ExpressionError E lhs opcode rhs = Ok o ->
     o = mkOp (inner lhs) (inner rhs) (inner opcode)) /\
  (@new Ctx ExpressionError E lhs opcode rhs = Ok (mkOp (inner lhs) (inner rhs) (inner opcode)) <->
   (is_comparison (inner opcode) = false \/ is_comparison_node (inner lhs) = false) /\
   (inner opcode <> ast.Err \/ fallible (type_def (inner lhs)) = true) /\
   (inner opcode <> ast.Merge
    \/ (is_object (type_def (inner lhs)) && is_object (type_def (inner rhs))) = true)).
Proof.
  destruct lhs as [lsp l], opcode as [osp o], rhs as [rsp r]. cbn [inner span].
  unfold new, take. cbn [span inner]. fold (is_comparison_node l).
  unfold is_infallible.
  destruct (is_comparison o) eqn:Hc, (is_comparison_node l) eqn:Hn; cbn [andb];
    destruct o; try discriminate Hc;
    destruct (fallible (type_def l)), (is_object (type_def l)), (is_object (type_def r));
    cbn [negb andb];
    (split; [intros o' Ho; first [discriminate Ho | injection Ho as <-; reflexivity]|]);
    split; intuition (try congruence).
Qed.

(** Every error [Op::new] returns carries the code 650, 651 or 652, at least
    one primary label, labels only at the spans of the operands and the
    operator, and notes only when it is [ChainedComparison] at the
    operator's span. *)
Theorem new_error_diagnostics `{DiagnosticMessage E}
    (lhs : Node Expr) (opcode : Node ast.Opcode) (rhs : Node Expr) (e : op.Error E)
    (Hnew : @new Ctx ExpressionError E lhs opcode rhs = Err e) :
  In (code e) [650; 651; 652]%nat /\
  existsb label_primary (labels e) = true /\
  Forall (fun lab => In (label_span lab) [span lhs; span rhs; span opcode]) (labels e) /\
  (notes e <> [] -> e = op.ChainedComparison (span opcode)).
Proof.
  destruct lhs as [lsp l], opcode as [osp o], rhs as [rsp r]. cbn [span].
  unfold new, take in Hnew. cbn [span inner] in Hnew.
  destruct (is_object (type_def l)), (is_object (type_def r)), o; cbn [negb andb] in Hnew;
  repeat match type of Hnew with
         | context [if ?c then _ else _] => destruct c
         end;
    try discriminate Hnew; injection Hnew as <-;
    cbn [code labels notes DiagnosticMessage_op_Error op_error_code op_error_labels
         op_error_notes existsb label_primary Label_primary Label_context app orb label_span];
    (split; [cbn; tauto|]);
    (split; [reflexivity|]);
    (split; [repeat constructor; cbn; tauto|]);
    try (intros Hc; exfalso; apply Hc; reflexivity); intros _; reflexivity.
Qed.

End Extras.

(** * Concrete runs, counterexamples and witnesses *)

Module Runs.
Import Sample.

(** The three-record [Add] batch: record [1]'s lhs fails. With the merge
    that restores record positions the output is in record order; with the
    appending merge record [1] comes last. *)
Example add_batch3 :
  op_resolve_batch merge_by_record add_node batch3
  = [(Ok (Integer 10), 0); (Err "lhs failed"%string, 1); (Ok (Integer 12), 2)]
  /\ op_resolve_batch (fun a b => a ++ b) add_node batch3
  = [(Ok (Integer 10), 0); (Ok (Integer 12), 2); (Err "lhs failed"%string, 1)].
Proof. split; reflexivity. Qed.

Example add_single3 :
  map (fun s => op_resolve add_node (snd s)) batch3
  = [(Ok (Integer 10), 0); (Err "lhs failed"%string, 1); (Ok (Integer 12), 2)].
Proof. reflexivity. Qed.

(** C1 counterexample: [100 * id + (10 + x)] on records [2] and [3], [x]
    failing on record [2]. The inner node leaves record [2] twice (as
    [Ok(Null)] and with its error), so the outer node's positional pairing of
    rhs slots with cached lhs values is off by one: under the merge that
    restores record positions, record [3] gets [13] where [resolve] gives
    [313], and record [2] gets a spurious error, an [Ok(Null)] and its own
    error; under the appending merge record [2] still gets the spurious
    error and two slots. *)
Lemma resolve_batch_nested_misalignment :
  order_preserving_merge merge_by_record
  /\ op_resolve_batch merge_by_record outer_add batch23
     = [(Err "unsupported operands"%string, 2); (Ok Null, 2);
        (Err "rhs failed"%string, 2); (Ok (Integer 13), 3)]
  /\ op_resolve_batch (fun a b => a ++ b) outer_add batch23
     = [(Err "unsupported operands"%string, 2); (Ok (Integer 313), 3);
        (Err "rhs failed"%string, 2)]
  /\ op_resolve outer_add 2 = (Err "rhs failed"%string, 2)
  /\ op_resolve outer_add 3 = (Ok (Integer 313), 3).
Proof.
  split; [exact merge_by_record_order_preserving|].
  repeat split; reflexivity.
Qed.

(** C2 counterexample: [10 + x] on records [0], [1] and [2], [x] failing on
    record [2]: under the merge that restores record positions, slot [2]
    holds [Ok(Null)], not record [2]'s error, and the error follows in a
    fourth slot. *)
Lemma resolve_batch_stale_null_slot :
  order_preserving_merge merge_by_record
  /\ op_resolve_batch merge_by_record inner_add batch3
     = [(Ok (Integer 10), 0); (Ok (Integer 11), 1); (Ok Null, 2); (Err "rhs failed"%string, 2)]
  /\ op_resolve inner_add 2 = (Err "rhs failed"%string, 2).
Proof.
  split; [exact merge_by_record_order_preserving|].
  split; reflexivity.
Qed.

(** C2 witness: [10 + x] on records [0], [1] and [2], [x] failing on record
    [2], with the merge that restores record positions. *)
Lemma resolve_batch_rhs_failure_breaks_order_witness :
  order_preserving_merge merge_by_record
  /\ is_short_circuit ast.Add = false
  /\ batch_pointwise merge_by_record (ELeaf ten)
  /\ batch_pointwise merge_by_record (ELeaf fail_on_two)
  /\ In (Ok Null, 2) batch3
  /\ rhs_fails (ELeaf ten) (ELeaf fail_on_two) (Ok Null, 2) = true
  /\ In (Ok Null, snd (resolve (ELeaf fail_on_two) (snd (resolve (ELeaf ten) 2))))
        (op_resolve_batch merge_by_record inner_add batch3)
  /\ fst (op_resolve inner_add 2) <> Ok Null
  /\ ~ Permutation (op_resolve_batch merge_by_record inner_add batch3)
                   (map (fun s => op_resolve inner_add (snd s)) batch3).
Proof.
  split; [exact merge_by_record_order_preserving|].
  split; [reflexivity|]. split; [apply leaf_batch_pointwise|].
  split; [apply leaf_batch_pointwise|].
  split; [right; right; left; reflexivity|]. split; [reflexivity|].
  apply (resolve_batch_rhs_failure_breaks_order merge_by_record (ELeaf ten) (ELeaf fail_on_two)
           ast.Add batch3 (Ok Null, 2));
    [exact merge_by_record_order_preserving|reflexivity|apply leaf_batch_pointwise
    |apply leaf_batch_pointwise|right; right; left; reflexivity|reflexivity].
Defined.

(** C3 counterexample: a lhs typed Integer-or-Float divided by the literal
    [1] is typed fallible. *)
Lemma div_union_lhs_fallible :
  k_is_superset K_integer_or_float (kind (type_def (ELeaf int_or_float))) = true
  /\ as_value (ELeaf one) = Some (Integer 1)
  /\ fallible (op_type_def (mkOp (ELeaf int_or_float) (ELeaf one) ast.Div)) = true.
Proof. repeat split. Qed.

(** C4 counterexample: a string lhs with the literal integer rhs [10] is
    typed Integer-or-Float and fallible, not Integer and infallible. *)
Lemma rem_bytes_lhs_union :
  as_value (ELeaf ten) = Some (Integer 10)
  /\ op_type_def (mkOp (ELeaf some_bytes) (ELeaf ten) ast.Rem) = make_fallible (add_integer td_float)
  /\ op_type_def (mkOp (ELeaf some_bytes) (ELeaf ten) ast.Rem) <> td_integer.
Proof. split; [reflexivity|split; [reflexivity|cbv; discriminate]]. Qed.

(** C5 counterexample: for [a < b < c] the error carries the span 6..7 of
    the second [<], which lies outside the span 0..5 of [a < b]. *)
Lemma chained_comparison_span_outside_lhs :
  @new Z string string chain_lhs chain_op chain_rhs = Err (op.ChainedComparison (mkSpan 6 7))
  /\ ~ (span_start (span chain_lhs) <= 6 /\ 7 <= span_end (span chain_lhs))%nat.
Proof. split; [reflexivity|cbn; lia]. Qed.

(** C5 witness: [a < b < c]. *)
Lemma chained_comparison_outer_span_witness :
  is_comparison (inner chain_op) = true
  /\ inner chain_lhs = EOp (mkOp (ELeaf read_field) (ELeaf ten) ast.Lt)
  /\ is_comparison ast.Lt = true
  /\ @new Z string string chain_lhs chain_op chain_rhs
     = Err (op.ChainedComparison (span chain_op)).
Proof.
  split; [reflexivity|]. split; [reflexivity|]. split; [reflexivity|].
  apply (chained_comparison_outer_span chain_lhs chain_op chain_rhs
           (ELeaf read_field) (ELeaf ten) ast.Lt); reflexivity.
Defined.

(** C7 witness: merging two strings reports both spans. *)
Lemma merge_non_objects_witness :
  inner merge_op = ast.Merge
  /\ (is_object (type_def (inner merge_lhs)) && is_object (type_def (inner merge_rhs))) = false
  /\ @new Z string string merge_lhs merge_op merge_rhs
     = Err (op.MergeNonObjects (Some (mkSpan 0 3)) (Some (mkSpan 6 9))).
Proof.
  split; [reflexivity|]. split; [reflexivity|].
  exact (merge_non_objects merge_lhs merge_op merge_rhs eq_refl eq_refl).
Defined.

(** C9 witness: [Add] of the record field and [10] on record [1]. *)
Lemma strict_lhs_first_witness :
  is_short_circuit ast.Add = false
  /\ (forall e c, resolve (ELeaf read_field) 1 = (Err e, c) ->
        op_resolve add_node 1 = (Err e, c))
  /\ (forall v c, resolve (ELeaf read_field) 1 = (Ok v, c) ->
        op_resolve add_node 1 =
        match resolve (ELeaf ten) c with
        | (Err e, c') => (Err e, c')
        | (Ok r, c') => (combine ast.Add v r, c')
        end).
Proof.
  split; [reflexivity|].
  apply (strict_lhs_first (ELeaf read_field) (ELeaf ten) ast.Add 1); reflexivity.
Defined.

End Runs.

Module ExtraRuns.
Import Sample.

(** [1 < 10]: both operands infallible integers. *)
Lemma comparison_type_def_witness :
  (ast.Lt = ast.Gt \/ ast.Lt = ast.Ge \/ ast.Lt = ast.Lt \/ ast.Lt = ast.Le)
  /\ (fallible (op_type_def (mkOp (ELeaf one) (ELeaf ten) ast.Lt)) = false <->
      fallible (type_def (ELeaf one)) = false /\ fallible (type_def (ELeaf ten)) = false /\
      ((is_bytes (type_def (ELeaf one)) && is_bytes (type_def (ELeaf ten))) = true
       \/ (k_is_superset K_integer_or_float (kind (type_def (ELeaf one))) = true
           /\ k_is_superset K_integer_or_float (kind (type_def (ELeaf ten))) = true))).
Proof.
  split; [right; right; left; reflexivity|].
  apply (comparison_type_def (ELeaf one) (ELeaf ten) ast.Lt). right; right; left; reflexivity.
Defined.

(** A string plus [10]. *)
Lemma add_bytes_type_def_witness :
  (is_bytes (type_def (ELeaf some_bytes)) || is_bytes (type_def (ELeaf ten))) = true
  /\ kind (op_type_def (mkOp (ELeaf some_bytes) (ELeaf ten) ast.Add)) = K_bytes
  /\ (fallible (op_type_def (mkOp (ELeaf some_bytes) (ELeaf ten) ast.Add)) = false <->
      fallible (type_def (ELeaf some_bytes)) = false /\ fallible (type_def (ELeaf ten)) = false /\
      k_is_superset K_bytes_or_null (kind (type_def (ELeaf some_bytes))) = true /\
      k_is_superset K_bytes_or_null (kind (type_def (ELeaf ten))) = true).
Proof.
  split; [reflexivity|].
  apply (add_bytes_type_def (ELeaf some_bytes) (ELeaf ten)). reflexivity.
Defined.

(** [10 - 1.5]. *)
Lemma float_arith_type_def_witness :
  (ast.Sub = ast.Sub \/ ast.Sub = ast.Mul
   \/ (ast.Sub = ast.Add
       /\ (is_bytes (type_def (ELeaf ten)) || is_bytes (type_def (ELeaf one_and_half))) = false))
  /\ (is_float (type_def (ELeaf ten)) || is_float (type_def (ELeaf one_and_half))) = true
  /\ kind (op_type_def (mkOp (ELeaf ten) (ELeaf one_and_half) ast.Sub)) = K_float
  /\ (fallible (op_type_def (mkOp (ELeaf ten) (ELeaf one_and_half) ast.Sub)) = false <->
      fallible (type_def (ELeaf ten)) = false /\ fallible (type_def (ELeaf one_and_half)) = false /\
      k_is_superset K_integer_or_float (kind (type_def (ELeaf ten))) = true /\
      k_is_superset K_integer_or_float (kind (type_def (ELeaf one_and_half))) = true).
Proof.
  split; [left; reflexivity|]. split; [reflexivity|].
  apply (float_arith_type_def (ELeaf ten) (ELeaf one_and_half) ast.Sub); [left; reflexivity|reflexivity].
Defined.

(** [1 * 10]. *)
Lemma integer_arith_type_def_witness :
  (ast.Mul = ast.Add \/ ast.Mul = ast.Sub \/ ast.Mul = ast.Mul)
  /\ (is_integer (type_def (ELeaf one)) && is_integer (type_def (ELeaf ten))) = true
  /\ op_type_def (mkOp (ELeaf one) (ELeaf ten) ast.Mul)
     = mkTypeDef (fallible (type_def (ELeaf one)) || fallible (type_def (ELeaf ten))) K_integer.
Proof.
  split; [right; right; reflexivity|]. split; [reflexivity|].
  apply (integer_arith_type_def (ELeaf one) (ELeaf ten) ast.Mul); [right; right; reflexivity|reflexivity].
Defined.

(** A string times [10]. *)
Lemma mul_bytes_type_def_witness :
  (is_bytes (type_def (ELeaf some_bytes)) && is_integer (type_def (ELeaf ten))
   || is_integer (type_def (ELeaf some_bytes)) && is_bytes (type_def (ELeaf ten))) = true
  /\ op_type_def (mkOp (ELeaf some_bytes) (ELeaf ten) ast.Mul)
     = mkTypeDef (fallible (type_def (ELeaf some_bytes)) || fallible (type_def (ELeaf ten))) K_bytes.
Proof.
  split; [reflexivity|].
  apply (mul_bytes_type_def (ELeaf some_bytes) (ELeaf ten)). reflexivity.
Defined.

(** [10 || field] on record [1]: the lhs [10] decides, the failing field
    can be swapped for the literal [1]. *)
Lemma lhs_decides_rhs_irrelevant_witness :
  lhs_decides ast.Or (fst (resolve (ELeaf ten) 1)) = true
  /\ op_resolve (mkOp (ELeaf ten) (ELeaf read_field) ast.Or) 1
     = op_resolve (mkOp (ELeaf ten) (ELeaf one) ast.Or) 1.
Proof.
  split; [reflexivity|].
  apply (lhs_decides_rhs_irrelevant (ELeaf ten) (ELeaf read_field) (ELeaf one) ast.Or 1).
  reflexivity.
Defined.

(** Records [0] and [2] of the [Add] node, with the merge that restores
    record positions: neither fails. *)
Lemma resolve_batch_no_failure_witness :
  order_preserving_merge merge_by_record
  /\ batch_pointwise merge_by_record (ELeaf read_field) /\ batch_pointwise merge_by_record (ELeaf ten)
  /\ (forall s, In s batch02 ->
        lhs_fails (ELeaf read_field) s = false /\ rhs_fails (ELeaf read_field) (ELeaf ten) s = false)
  /\ op_resolve_batch merge_by_record add_node batch02
     = map (fun s => op_resolve add_node (snd s)) batch02.
Proof.
  assert (Hok : forall s, In s batch02 ->
            lhs_fails (ELeaf read_field) s = false
            /\ rhs_fails (ELeaf read_field) (ELeaf ten) s = false).
  { intros s [<- | [<- | []]]; split; reflexivity. }
  split; [exact merge_by_record_order_preserving|].
  split; [apply leaf_batch_pointwise|]. split; [apply leaf_batch_pointwise|].
  split; [exact Hok|].
  apply (resolve_batch_no_failure merge_by_record (ELeaf read_field) (ELeaf ten) ast.Add);
    [exact merge_by_record_order_preserving|apply leaf_batch_pointwise
    |apply leaf_batch_pointwise|exact Hok].
Defined.

(** The three-record [Add] batch keeps three slots: no rhs fails. *)
Lemma resolve_batch_length_witness :
  order_preserving_merge merge_by_record
  /\ batch_pointwise merge_by_record (ELeaf read_field) /\ batch_pointwise merge_by_record (ELeaf ten)
  /\ List.length (op_resolve_batch merge_by_record add_node batch3)
     = (List.length batch3
        + if is_short_circuit ast.Add then 0
          else List.length (filter (rhs_fails (ELeaf read_field) (ELeaf ten)) batch3))%nat.
Proof.
  split; [exact merge_by_record_order_preserving|].
  split; [apply leaf_batch_pointwise|]. split; [apply leaf_batch_pointwise|].
  apply (resolve_batch_length merge_by_record (ELeaf read_field) (ELeaf ten) ast.Add batch3);
    [exact merge_by_record_order_preserving|apply leaf_batch_pointwise|apply leaf_batch_pointwise].
Defined.

(** [10 + x] where [x] fails on record [2], with the merge that restores
    record positions: record [2] appears as [Ok(Null)] and with its error. *)
Lemma resolve_batch_rhs_failure_twice_witness :
  order_preserving_merge merge_by_record
  /\ is_short_circuit ast.Add = false
  /\ batch_pointwise merge_by_record (ELeaf ten) /\ batch_pointwise merge_by_record (ELeaf fail_on_two)
  /\ In (Ok Null, 2) batch3
  /\ rhs_fails (ELeaf ten) (ELeaf fail_on_two) (Ok Null, 2) = true
  /\ In (Ok Null, snd (resolve (ELeaf fail_on_two) (snd (resolve (ELeaf ten) 2))))
        (op_resolve_batch merge_by_record (mkOp (ELeaf ten) (ELeaf fail_on_two) ast.Add) batch3)
  /\ In (op_resolve (mkOp (ELeaf ten) (ELeaf fail_on_two) ast.Add) 2)
        (op_resolve_batch merge_by_record (mkOp (ELeaf ten) (ELeaf fail_on_two) ast.Add) batch3)
  /\ is_err (fst (op_resolve (mkOp (ELeaf ten) (ELeaf fail_on_two) ast.Add) 2)) = true.
Proof.
  split; [exact merge_by_record_order_preserving|].
  split; [reflexivity|]. split; [apply leaf_batch_pointwise|].
  split; [apply leaf_batch_pointwise|].
  split; [right; right; left; reflexivity|]. split; [reflexivity|].
  apply (resolve_batch_rhs_failure_twice merge_by_record (ELeaf ten) (ELeaf fail_on_two) ast.Add
           batch3 (Ok Null, 2));
    [exact merge_by_record_order_preserving|reflexivity|apply leaf_batch_pointwise
    |apply leaf_batch_pointwise|right; right; left; reflexivity|reflexivity].
Defined.

(** Merging two strings. *)
Lemma new_error_diagnostics_witness :
  @new Z string string merge_lhs merge_op merge_rhs
  = Err (op.MergeNonObjects (Some (mkSpan 0 3)) (Some (mkSpan 6 9)))
  /\ In (code (op.MergeNonObjects (Some (mkSpan 0 3)) (Some (mkSpan 6 9)) : op.Error string))
        [650; 651; 652]%nat
  /\ existsb label_primary
       (labels (op.MergeNonObjects (Some (mkSpan 0 3)) (Some (mkSpan 6 9)) : op.Error string)) = true
  /\ Forall (fun lab => In (label_span lab) [span merge_lhs; span merge_rhs; span merge_op])
       (labels (op.MergeNonObjects (Some (mkSpan 0 3)) (Some (mkSpan 6 9)) : op.Error string))
  /\ (notes (op.MergeNonObjects (Some (mkSpan 0 3)) (Some (mkSpan 6 9)) : op.Error string) <> [] ->
      (op.MergeNonObjects (Some (mkSpan 0 3)) (Some (mkSpan 6 9)) : op.Error string)
      = op.ChainedComparison (span merge_op)).
Proof.
  split; [reflexivity|].
  apply (new_error_diagnostics merge_lhs merge_op merge_rhs). reflexivity.
Defined.

End ExtraRuns.
